(** * Super Mario Land (Pygame recreation): physics core and game state machine

    Shallow embedding of [client-mario-landv1gb.py]: the camera, the player
    controller ([Player.apply_input], [Player.physics], [Player.update]),
    the level data, the [GameState] counters and the body of [main]'s loop.

    Numbers.  Python mixes [int] and [float] in the coordinates and the
    velocities; both are modelled by exact rationals ([Q]), so a float
    addition is an exact addition.  The counters of [GameState] only ever hold
    integers and are modelled by [Z].  Audio synthesis is outside the model;
    playing a sound effect is recorded in a log.  The drawing routines work
    on a surface given by the colour of each pixel. *)

From Stdlib Require Import ZArith QArith Qabs Qround List Bool Lia Lqa Ascii.
Import ListNotations.

Local Open Scope Q_scope.

(** ** Python's numeric primitives *)

(** [a < b] on numbers, as a boolean. *)
Definition Qltb (a b : Q) : bool := negb (Qle_bool b a).

(** Python's [max(a, b)]: the first argument unless the second is larger. *)
Definition py_max (a b : Q) : Q := if Qltb a b then b else a.

(** Python's [min(a, b)]: the first argument unless the second is smaller. *)
Definition py_min (a b : Q) : Q := if Qltb b a then b else a.

(** Python's [x % m] on floats, for a positive [m]: the remainder of the
    floored division, kept as a reduced fraction. *)
Definition py_fmod (x m : Q) : Q := Qred (x - m * inject_Z (Qfloor (x / m))).

(** ** Constants *)

Definition GB_W : Z := 160.
Definition GB_H : Z := 144.
Definition FPS : Z := 60.

Definition GRAVITY : Q := 1 # 4.            (* 0.25 *)
Definition PLAYER_ACCEL : Q := 1 # 10.      (* 0.10 *)
Definition PLAYER_DECEL : Q := 3 # 20.      (* 0.15 *)
Definition PLAYER_MAX_SPEED : Q := 8 # 5.   (* 1.6  *)
Definition JUMP_IMPULSE : Q := 9 # 2.       (* 4.5  *)

Definition SCROLL_EDGE : Z := (GB_W / 2)%Z.  (* GB_W // 2 *)

(** ** Sound effects: [sounds.<name>.play()] appends to a log *)

Inductive Sound : Set :=
  SfxJump | SfxCoin | SfxStomp | SfxVictory | SfxDamage | SfxGameover.

(** ** Camera *)

Module Camera.

(** The camera is its single attribute [scroll_x]. *)
Definition t : Set := Q.

Definition init : t := 0.

Definition update (target_x : Q) (scroll_x : t) : t :=
  let scroll_x :=
    if Qltb (inject_Z SCROLL_EDGE) (target_x - scroll_x)
    then target_x - inject_Z SCROLL_EDGE
    else scroll_x in
  if Qltb scroll_x 0 then 0 else scroll_x.

End Camera.

(** ** Level entities *)

Record Platform : Set := mkPlatform
  { p_x : Q; p_y : Q; p_width : Q; p_height : Q }.

(** A coin is a mutable object: [c_id] stands for the object's identity,
    which is what [list.remove] compares ([Coin] defines no [__eq__]). *)
Record Coin : Set := mkCoin
  { c_id : nat; c_x : Q; c_y : Q; c_width : Q; c_height : Q; c_frame : Q }.

Record Goal : Set := mkGoal
  { g_x : Q; g_y : Q; g_width : Q; g_height : Q; g_anim : Z }.

Definition new_Coin (id : nat) (x y : Q) : Coin :=
  {| c_id := id; c_x := x; c_y := y; c_width := 8; c_height := 8; c_frame := 0 |}.

Definition Coin_update (c : Coin) : Coin :=
  {| c_id := c_id c; c_x := c_x c; c_y := c_y c;
     c_width := c_width c; c_height := c_height c;
     c_frame := py_fmod (c_frame c + (3 # 20)) 4 |}.

Definition new_Goal (x y : Q) : Goal :=
  {| g_x := x; g_y := y; g_width := 16; g_height := 32; g_anim := 0 |}.

(** ** Keyboard state, as [pygame.key.get_pressed()] returns it *)

Record Keys : Set := mkKeys
  { K_LEFT : bool; K_a : bool; K_RIGHT : bool; K_d : bool;
    K_z : bool; K_SPACE : bool }.

Definition no_keys : Keys := mkKeys false false false false false false.

(** ** Player *)

Module Player.

(** [SpriteBase] attributes followed by those [Player.__init__] adds. *)
Record t : Set := mk
  { x : Q; y : Q; width : Q; height : Q;
    vel_x : Q; vel_y : Q; active : bool;
    grounded : bool; anim_timer : Z; frame : Z; alive : bool }.

Definition init (x0 y0 : Q) : t :=
  {| x := x0; y := y0; width := 8; height := 16;
     vel_x := 0; vel_y := 0; active := true;
     grounded := false; anim_timer := 0; frame := 0; alive := true |}.

Definition set_x (v : Q) (s : t) : t :=
  mk v (y s) (width s) (height s) (vel_x s) (vel_y s) (active s)
     (grounded s) (anim_timer s) (frame s) (alive s).
Definition set_y (v : Q) (s : t) : t :=
  mk (x s) v (width s) (height s) (vel_x s) (vel_y s) (active s)
     (grounded s) (anim_timer s) (frame s) (alive s).
Definition set_vel_x (v : Q) (s : t) : t :=
  mk (x s) (y s) (width s) (height s) v (vel_y s) (active s)
     (grounded s) (anim_timer s) (frame s) (alive s).
Definition set_vel_y (v : Q) (s : t) : t :=
  mk (x s) (y s) (width s) (height s) (vel_x s) v (active s)
     (grounded s) (anim_timer s) (frame s) (alive s).
Definition set_grounded (v : bool) (s : t) : t :=
  mk (x s) (y s) (width s) (height s) (vel_x s) (vel_y s) (active s)
     v (anim_timer s) (frame s) (alive s).
Definition set_anim_timer (v : Z) (s : t) : t :=
  mk (x s) (y s) (width s) (height s) (vel_x s) (vel_y s) (active s)
     (grounded s) v (frame s) (alive s).
Definition set_frame (v : Z) (s : t) : t :=
  mk (x s) (y s) (width s) (height s) (vel_x s) (vel_y s) (active s)
     (grounded s) (anim_timer s) v (alive s).

(** The four-way test both loops of [physics] make against a platform. *)
Definition hits (s : t) (p : Platform) : bool :=
  Qltb (x s) (p_x p + p_width p) && Qltb (p_x p) (x s + width s) &&
  Qltb (y s) (p_y p + p_height p) && Qltb (p_y p) (y s + height s).

(** [apply_input]: the new player and the sounds played. *)
Definition apply_input (keys : Keys) (s : t) : t * list Sound :=
  if negb (alive s) then (s, [])
  else
    let s :=
      if K_LEFT keys || K_a keys then
        set_vel_x (py_max (vel_x s - PLAYER_ACCEL) (- PLAYER_MAX_SPEED)) s
      else if K_RIGHT keys || K_d keys then
        set_vel_x (py_min (vel_x s + PLAYER_ACCEL) PLAYER_MAX_SPEED) s
      else if Qltb 0 (vel_x s) then
        set_vel_x (py_max 0 (vel_x s - PLAYER_DECEL)) s
      else if Qltb (vel_x s) 0 then
        set_vel_x (py_min 0 (vel_x s + PLAYER_DECEL)) s
      else s in
    if (K_z keys || K_SPACE keys) && grounded s then
      (set_grounded false (set_vel_y (- JUMP_IMPULSE) s), [SfxJump])
    else (s, []).

(** Body of the first [for p in platforms] loop. *)
Definition resolve_x (s : t) (p : Platform) : t :=
  if hits s p then
    let s :=
      if Qltb 0 (vel_x s) then set_x (p_x p - width s) s
      else if Qltb (vel_x s) 0 then set_x (p_x p + p_width p) s
      else s in
    set_vel_x 0 s
  else s.

(** Body of the second [for p in platforms] loop. *)
Definition resolve_y (s : t) (p : Platform) : t :=
  if hits s p then
    if Qltb 0 (vel_y s) then
      set_grounded true (set_vel_y 0 (set_y (p_y p - height s) s))
    else if Qltb (vel_y s) 0 then
      set_vel_y 0 (set_y (p_y p + p_height p) s)
    else s
  else s.

(** The state at the head of each loop of [physics]. *)
Definition move_x (s : t) : t :=
  let s := set_vel_y (vel_y s + GRAVITY) s in
  set_x (x s + vel_x s) s.

Definition move_y (s : t) : t :=
  set_grounded false (set_y (y s + vel_y s) s).

Definition physics (platforms : list Platform) (s : t) : t :=
  let s := move_x s in
  let s := fold_left resolve_x platforms s in
  let s := move_y s in
  fold_left resolve_y platforms s.

Definition animate (s : t) : t :=
  if alive s then
    let s := set_anim_timer (anim_timer s + 1)%Z s in
    if Qltb (1 # 5) (Qabs (vel_x s)) && grounded s then
      if (anim_timer s mod 8 =? 0)%Z then set_frame (Z.lxor (frame s) 1) s
      else s
    else set_frame 0%Z s
  else s.

Definition update (keys : Keys) (platforms : list Platform) (s : t)
  : t * list Sound :=
  let '(s, snd) := apply_input keys s in
  let s := physics platforms s in
  (animate s, snd).

End Player.

(** ** Game state *)

Inductive Mode : Set := MENU | PLAYING | GAME_OVER | VICTORY.

Module GameState.

Record t : Set := mk
  { state : Mode; score : Z; lives : Z; coins : Z; time : Z; timer : Z }.

Definition init : t :=
  {| state := MENU; score := 0; lives := 3; coins := 0;
     time := 400; timer := 0 |}.

Definition set_state (v : Mode) (g : t) : t :=
  mk v (score g) (lives g) (coins g) (time g) (timer g).
Definition set_score (v : Z) (g : t) : t :=
  mk (state g) v (lives g) (coins g) (time g) (timer g).
Definition set_lives (v : Z) (g : t) : t :=
  mk (state g) (score g) v (coins g) (time g) (timer g).
Definition set_coins (v : Z) (g : t) : t :=
  mk (state g) (score g) (lives g) v (time g) (timer g).
Definition set_time (v : Z) (g : t) : t :=
  mk (state g) (score g) (lives g) (coins g) v (timer g).
Definition set_timer (v : Z) (g : t) : t :=
  mk (state g) (score g) (lives g) (coins g) (time g) v.

Definition reset_level (g : t) : t :=
  set_timer 0 (set_time 400 (set_coins 0 (set_score 0 g))).

End GameState.

(** ** Level 1-1 *)

Definition level_platforms : list Platform :=
  [ mkPlatform 0 128 200 16;
    mkPlatform 224 128 200 16;
    mkPlatform 448 128 400 16;
    mkPlatform 160 96 32 16;
    mkPlatform 256 80 48 16;
    mkPlatform 352 64 32 16;
    mkPlatform 480 96 64 16;
    mkPlatform 600 112 32 16 ].

(** Six fresh coin objects; their identities are numbered in creation
    order. *)
Definition level_coins : list Coin :=
  [ new_Coin 0 176 80;
    new_Coin 1 272 64;
    new_Coin 2 368 48;
    new_Coin 3 496 80;
    new_Coin 4 512 80;
    new_Coin 5 616 96 ].

Definition level_goal : Goal := new_Goal 800 96.

Definition create_level_1_1 : list Platform * list Coin * Goal :=
  (level_platforms, level_coins, level_goal).

(** ** The world [main] owns *)

Record World : Set := mkWorld
  { game_state : GameState.t;
    platforms : list Platform;
    coins : list Coin;
    goal : Goal;
    player : Player.t;
    CAMERA : Camera.t;
    running : bool;
    played : list Sound }.

Definition set_game_state (g : GameState.t) (w : World) : World :=
  mkWorld g (platforms w) (coins w) (goal w) (player w) (CAMERA w)
          (running w) (played w).
Definition set_player (p : Player.t) (w : World) : World :=
  mkWorld (game_state w) (platforms w) (coins w) (goal w) p (CAMERA w)
          (running w) (played w).
Definition set_coins (c : list Coin) (w : World) : World :=
  mkWorld (game_state w) (platforms w) c (goal w) (player w) (CAMERA w)
          (running w) (played w).
Definition set_CAMERA (c : Camera.t) (w : World) : World :=
  mkWorld (game_state w) (platforms w) (coins w) (goal w) (player w) c
          (running w) (played w).
Definition set_running (r : bool) (w : World) : World :=
  mkWorld (game_state w) (platforms w) (coins w) (goal w) (player w) (CAMERA w)
          r (played w).
Definition play (s : list Sound) (w : World) : World :=
  mkWorld (game_state w) (platforms w) (coins w) (goal w) (player w) (CAMERA w)
          (running w) (played w ++ s).

(** The state of [main] on entry to its loop. *)
Definition initial_world : World :=
  let '(platforms, coins, goal) := create_level_1_1 in
  {| game_state := GameState.init;
     platforms := platforms; coins := coins; goal := goal;
     player := Player.init 32 100;
     CAMERA := Camera.init;
     running := true;
     played := [] |}.

(** ** Events *)

Inductive Key : Set := K_ESCAPE | K_RETURN | K_OTHER.

Inductive Event : Set := QUIT | KEYDOWN (key : Key) | OTHER_EVENT.

(** Body of [for event in pygame.event.get()]. *)
Definition handle_event (w : World) (e : Event) : World :=
  match e with
  | QUIT => set_running false w
  | KEYDOWN K_ESCAPE =>
      match GameState.state (game_state w) with
      | PLAYING => set_game_state (GameState.set_state MENU (game_state w)) w
      | MENU | GAME_OVER | VICTORY => set_running false w
      end
  | KEYDOWN K_RETURN =>
      match GameState.state (game_state w) with
      | MENU | GAME_OVER =>
          let g := GameState.set_state PLAYING (game_state w) in
          let g := GameState.reset_level g in
          let '(platforms, coins, goal) := create_level_1_1 in
          {| game_state := g;
             platforms := platforms; coins := coins; goal := goal;
             player := Player.init 32 100;
             CAMERA := 0;
             running := running w;
             played := played w |}
      | PLAYING | VICTORY => w
      end
  | KEYDOWN K_OTHER | OTHER_EVENT => w
  end.

(** ** One PLAYING tick, stage by stage *)

(** "Update game timer". *)
Definition tick_timer (w : World) : World :=
  let g := game_state w in
  let g := GameState.set_timer (GameState.timer g + 1)%Z g in
  if (GameState.timer g mod 60 =? 0)%Z then
    let g := GameState.set_time (GameState.time g - 1)%Z g in
    if (GameState.time g <=? 0)%Z then
      play [SfxGameover] (set_game_state (GameState.set_state GAME_OVER g) w)
    else set_game_state g w
  else set_game_state g w.

(** "Update player". *)
Definition tick_player (keys : Keys) (w : World) : World :=
  let '(p, snd) := Player.update keys (platforms w) (player w) in
  play snd (set_player p w).

(** "Check if player fell off screen". *)
Definition tick_fall (w : World) : World :=
  if Qltb (inject_Z GB_H) (Player.y (player w)) then
    let g := game_state w in
    let g := GameState.set_lives (GameState.lives g - 1)%Z g in
    if (GameState.lives g <=? 0)%Z then
      play [SfxGameover] (set_game_state (GameState.set_state GAME_OVER g) w)
    else
      play [SfxDamage]
        (set_CAMERA 0 (set_player (Player.init 32 100) (set_game_state g w)))
  else w.

(** "Update camera". *)
Definition tick_camera (w : World) : World :=
  set_CAMERA (Camera.update (Player.x (player w)) (CAMERA w)) w.

(** The overlap test of the coin loop. *)
Definition coin_hit (p : Player.t) (c : Coin) : bool :=
  Qltb (Player.x p) (c_x c + c_width c) &&
  Qltb (c_x c) (Player.x p + Player.width p) &&
  Qltb (Player.y p) (c_y c + c_height c) &&
  Qltb (c_y c) (Player.y p + Player.height p).

(** A mutation of the object [c'] is seen through the list holding it. *)
Definition store (c' : Coin) (l : list Coin) : list Coin :=
  map (fun c => if Nat.eqb (c_id c) (c_id c') then c' else c) l.

(** [list.remove(obj)]: drops the first occurrence of the object; [None] is
    the [ValueError] raised when the list does not hold it. *)
Fixpoint list_remove (id : nat) (l : list Coin) : option (list Coin) :=
  match l with
  | [] => None
  | c :: l' =>
      if Nat.eqb (c_id c) id then Some l'
      else option_map (cons c) (list_remove id l')
  end.

(** One iteration of [for coin in coins[:]]: [c] is the object visited,
    [w] carries the live list [coins]. *)
Definition collect_step (acc : option World) (c : Coin) : option World :=
  match acc with
  | None => None
  | Some w =>
      let c := Coin_update c in
      let w := set_coins (store c (coins w)) w in
      if coin_hit (player w) c then
        match list_remove (c_id c) (coins w) with
        | None => None
        | Some l =>
            let g := game_state w in
            let g := GameState.set_coins (GameState.coins g + 1)%Z g in
            let g := GameState.set_score (GameState.score g + 200)%Z g in
            Some (play [SfxCoin] (set_game_state g (set_coins l w)))
        end
      else Some w
  end.

(** "Update coins": the loop runs over a copy taken on entry. *)
Definition tick_coins (w : World) : option World :=
  fold_left collect_step (coins w) (Some w).

(** "Check goal". *)
Definition goal_hit (p : Player.t) (g : Goal) : bool :=
  Qltb (Player.x p) (g_x g + g_width g) &&
  Qltb (g_x g) (Player.x p + Player.width p) &&
  Qltb (Player.y p) (g_y g + g_height g) &&
  Qltb (g_y g) (Player.y p + Player.height p).

Definition tick_goal (w : World) : World :=
  if goal_hit (player w) (goal w) then
    play [SfxVictory]
      (set_game_state (GameState.set_state VICTORY (game_state w)) w)
  else w.

(** The [elif game_state.state == "PLAYING"] branch. *)
Definition playing_tick (keys : Keys) (w : World) : option World :=
  let w := tick_timer w in
  let w := tick_player keys w in
  let w := tick_fall w in
  let w := tick_camera w in
  option_map tick_goal (tick_coins w).

(** What one pass of the loop does after the events: only the PLAYING branch
    changes the world, the others draw. *)
Definition tick (keys : Keys) (w : World) : option World :=
  match GameState.state (game_state w) with
  | PLAYING => playing_tick keys w
  | MENU | GAME_OVER | VICTORY => Some w
  end.

(** One pass of [while running]: the pending events, then the branch on the
    state. *)
Definition frame (evs : list Event) (keys : Keys) (w : World) : option World :=
  tick keys (fold_left handle_event evs w).

(** Consecutive passes without events. *)
Fixpoint run_ticks (ks : list Keys) (w : World) : option World :=
  match ks with
  | [] => Some w
  | k :: ks' =>
      match tick k w with
      | Some w' => run_ticks ks' w'
      | None => None
      end
  end.

(** [main]'s loop over the inputs of successive passes; it stops when
    [running] is cleared. *)
Fixpoint main_loop (inputs : list (list Event * Keys)) (w : World)
  : option World :=
  match inputs with
  | [] => Some w
  | (evs, keys) :: rest =>
      if running w then
        match frame evs keys w with
        | Some w' => main_loop rest w'
        | None => None
        end
      else Some w
  end.

Definition main (inputs : list (list Event * Keys)) : option World :=
  main_loop inputs initial_world.

(** ** Vocabulary of the statements *)

Definition Sound_eq_dec (a b : Sound) : {a = b} + {a <> b}.
Proof. decide equality. Defined.

(** How many times a sound occurs in a log. *)
Definition plays (snd : Sound) (log : list Sound) : nat :=
  count_occ Sound_eq_dec log snd.

Definition held_left (keys : Keys) : bool := K_LEFT keys || K_a keys.
Definition held_right (keys : Keys) : bool := K_RIGHT keys || K_d keys.
Definition held_jump (keys : Keys) : bool := K_z keys || K_SPACE keys.

(** The same keyboard with both jump keys up. *)
Definition release_jump (keys : Keys) : Keys :=
  mkKeys (K_LEFT keys) (K_a keys) (K_RIGHT keys) (K_d keys) false false.

(** The horizontal speed limit. *)
Definition speed_ok (s : Player.t) : Prop :=
  - PLAYER_MAX_SPEED <= Player.vel_x s /\ Player.vel_x s <= PLAYER_MAX_SPEED.

(** [Player.update] called once per entry of [ks]. *)
Definition run_updates (platforms : list Platform) (ks : list Keys)
  (s : Player.t) : Player.t :=
  fold_left (fun s keys => fst (Player.update keys platforms s)) ks s.

(** The player the fall check and the goal check of a tick look at. *)
Definition updated_player (keys : Keys) (w : World) : Player.t :=
  fst (Player.update keys (platforms w) (player w)).

Definition falls (keys : Keys) (w : World) : bool :=
  Qltb (inject_Z GB_H) (Player.y (updated_player keys w)).

Definition reaches_goal (keys : Keys) (w : World) : bool :=
  goal_hit (updated_player keys w) (goal w).

(** A tick on which the player neither falls off the screen nor touches the
    goal. *)
Definition quiet (keys : Keys) (w : World) : bool :=
  negb (falls keys w) && negb (reaches_goal keys w).

Fixpoint quiet_run (ks : list Keys) (w : World) : bool :=
  match ks with
  | [] => true
  | k :: ks' =>
      quiet k w &&
      match tick k w with
      | Some w' => quiet_run ks' w'
      | None => false
      end
  end.

(** The identities of the active coins; distinct objects have distinct
    identities. *)
Definition coin_ids (w : World) : list nat := map c_id (coins w).

Definition distinct_coins (w : World) : Prop := NoDup (coin_ids w).

(** The number of active coins overlapping a player. *)
Definition touched (p : Player.t) (l : list Coin) : Z :=
  Z.of_nat (length (filter (coin_hit p) l)).

(** Concrete situations used below. *)

Definition hold_right : Keys := mkKeys false false true false false false.
Definition press_jump : Keys := mkKeys false false false false true false.

(** A player running right at full speed, and two walls just ahead. *)
Definition runner : Player.t := Player.set_vel_x (8 # 5) (Player.init 0 0).
Definition wall_a : Platform := mkPlatform (19 # 2) 0 8 16.
Definition wall_b : Platform := mkPlatform 9 0 8 16.

(** A player standing on the first ground platform of level 1-1, right under
    the floating platform at (160, 96). *)
Definition under_ledge : Player.t :=
  Player.set_grounded true (Player.init 170 112).

(** A session of [main]: ENTER on the title screen, then the right arrow
    held for [n] passes of the loop. *)
Definition start_and_run (n : nat) : list (list Event * Keys) :=
  ([KEYDOWN K_RETURN], no_keys) :: repeat ([], hold_right) n.

(** The player of [Player(32, 100)] with [grounded] set, as in the spec's
    jump scenario. *)
Definition spawn_grounded : Player.t :=
  Player.set_grounded true (Player.init 32 100).

(** A player one pixel above the first ground platform, falling. *)
Definition above_ground : Player.t :=
  Player.set_vel_y 2 (Player.init 32 111).

(** The world the coin loop of a PLAYING tick starts from. *)
Definition before_coins (keys : Keys) (w : World) : World :=
  tick_camera (tick_fall (tick_player keys (tick_timer w))).

(** The second has run out on this tick. *)
Definition expires (w : World) : bool :=
  let g := game_state w in
  ((GameState.timer g + 1) mod 60 =? 0)%Z && (GameState.time g - 1 <=? 0)%Z.

(** The last life is lost on this tick. *)
Definition last_life (w : World) : bool :=
  (GameState.lives (game_state w) - 1 <=? 0)%Z.

(** [k] coins collected: [coins += 1] and [score += 200] for each. *)
Definition award (k : Z) (g : GameState.t) : GameState.t :=
  GameState.mk (GameState.state g) (GameState.score g + 200 * k)%Z
    (GameState.lives g) (GameState.coins g + k)%Z
    (GameState.time g) (GameState.timer g).

(** The coins a player leaves in the active list, each one animated. *)
Definition left_over (p : Player.t) (l : list Coin) : list Coin :=
  map Coin_update (filter (fun c => negb (coin_hit p c)) l).

(** What holds of every world [main] goes through. *)
Definition reachable_inv (w : World) : Prop :=
  distinct_coins w /\ speed_ok (player w) /\ 0 <= CAMERA w /\
  platforms w = level_platforms /\ goal w = level_goal.

(** A small world in the PLAYING state at the start of a level: one ground
    platform, the player standing on it, no coin left. *)
Definition flat_world : World :=
  {| game_state := GameState.set_state PLAYING GameState.init;
     platforms := [mkPlatform 0 128 200 16];
     coins := [];
     goal := level_goal;
     player := Player.init 32 112;
     CAMERA := 0;
     running := true;
     played := [] |}.

(** Level 1-1 just started, with the player put below the screen, in the
    first pit. *)
Definition pit_world : World :=
  set_player (Player.init 210 150)
    (handle_event initial_world (KEYDOWN K_RETURN)).

(** Level 1-1 just started, with the player put on the first coin. *)
Definition coin_world : World :=
  set_player (Player.init 176 80)
    (handle_event initial_world (KEYDOWN K_RETURN)).

(** Level 1-1 just started, with the player put on the goal. *)
Definition goal_world : World :=
  set_player (Player.init 800 100)
    (handle_event initial_world (KEYDOWN K_RETURN)).

(** ** Drawing *)

(** An RGB colour. *)
Definition Color : Set := (Z * Z * Z)%type.

Definition COL_DARK2 : Color := (15, 56, 15)%Z.
Definition COL_DARK1 : Color := (48, 98, 48)%Z.
Definition COL_LIGHT1 : Color := (139, 172, 15)%Z.
Definition COL_LIGHT2 : Color := (155, 188, 15)%Z.

(** The GB_W x GB_H surface [gb_surface], as the colour of each pixel; the
    pixels outside the surface are never written. *)
Definition Surface : Type := Z -> Z -> Color.

(** [surface.set_at((x, y), color)]. *)
Definition set_at (surface : Surface) (x y : Z) (color : Color) : Surface :=
  fun x' y' => if ((x' =? x) && (y' =? y))%Z then color else surface x' y'.

(** [surface.fill(color)]. *)
Definition fill (color : Color) : Surface := fun _ _ => color.

Definition draw_pixel (surface : Surface) (x y : Z) (color : Color)
  : Surface :=
  if ((0 <=? x) && (x <? GB_W) && ((0 <=? y) && (y <? GB_H)))%Z
  then set_at surface x y color
  else surface.

(** [sprite_array[y][i]] for indexes that are not negative; [None] is the
    [IndexError] of a row or a column that does not exist. *)
Definition sprite_at (sprite_array : list (list Z)) (y i : nat) : option Z :=
  match nth_error sprite_array y with
  | Some row => nth_error row i
  | None => None
  end.

(** Body of the inner loop of [draw_sprite], at row [y] and column [x]. *)
Definition draw_sprite_cell (sprite_array : list (list Z)) (width : Z)
  (x_off y_off : Z) (flip : bool) (y x : nat) (surface : Surface)
  : option Surface :=
  let i := if flip then Z.to_nat (width - 1 - Z.of_nat x) else x in
  match sprite_at sprite_array y i with
  | None => None
  | Some val =>
      if (val =? 1)%Z then
        Some (draw_pixel surface (x_off + Z.of_nat x) (y_off + Z.of_nat y)
                COL_DARK1)
      else if (val =? 2)%Z then
        Some (draw_pixel surface (x_off + Z.of_nat x) (y_off + Z.of_nat y)
                COL_DARK2)
      else Some surface
  end.

(** [for x in ...] over the columns [xs] of row [y]. *)
Fixpoint draw_sprite_row (sprite_array : list (list Z)) (width : Z)
  (x_off y_off : Z) (flip : bool) (y : nat) (xs : list nat)
  (surface : Surface) : option Surface :=
  match xs with
  | [] => Some surface
  | x :: xs' =>
      match draw_sprite_cell sprite_array width x_off y_off flip y x surface
      with
      | Some surface' =>
          draw_sprite_row sprite_array width x_off y_off flip y xs' surface'
      | None => None
      end
  end.

(** [for y in ...] over the rows [ys]. *)
Fixpoint draw_sprite_rows (sprite_array : list (list Z)) (width : Z)
  (x_off y_off : Z) (flip : bool) (ys : list nat) (surface : Surface)
  : option Surface :=
  match ys with
  | [] => Some surface
  | y :: ys' =>
      match draw_sprite_row sprite_array width x_off y_off flip y
              (seq 0 (Z.to_nat width)) surface
      with
      | Some surface' =>
          draw_sprite_rows sprite_array width x_off y_off flip ys' surface'
      | None => None
      end
  end.

Definition draw_sprite (surface : Surface) (sprite_array : list (list Z))
  (width height x_off y_off : Z) (flip : bool) : option Surface :=
  draw_sprite_rows sprite_array width x_off y_off flip
    (seq 0 (Z.to_nat height)) surface.

(** The colour a sprite value puts over a pixel. *)
Definition paint (val : Z) (under : Color) : Color :=
  if (val =? 1)%Z then COL_DARK1
  else if (val =? 2)%Z then COL_DARK2
  else under.

(** What the body of the inner loop draws for the value [val]. *)
Definition paint_cell (surface : Surface) (x y val : Z) : Surface :=
  if (val =? 1)%Z then draw_pixel surface x y COL_DARK1
  else if (val =? 2)%Z then draw_pixel surface x y COL_DARK2
  else surface.

(** A pixel of the surface. *)
Definition on_screen (x y : Z) : bool :=
  ((0 <=? x) && (x <? GB_W) && ((0 <=? y) && (y <? GB_H)))%Z.

(** A sprite array with at least [height] rows of at least [width] values. *)
Definition covers (sprite_array : list (list Z)) (width height : Z) : Prop :=
  forall y, (y < Z.to_nat height)%nat ->
    exists row, nth_error sprite_array y = Some row /\
                (Z.to_nat width <= length row)%nat.

(** The value [draw_sprite] reads for the pixel at column [dx], row [dy] of
    its box (0 where the array has none). *)
Definition sprite_value (sprite_array : list (list Z)) (width : Z)
  (flip : bool) (dx dy : Z) : Z :=
  let i := if flip then (width - 1 - dx)%Z else dx in
  nth (Z.to_nat i) (nth (Z.to_nat dy) sprite_array []) 0%Z.

(** Python's [int(q)]: truncation towards zero. *)
Definition py_int (q : Q) : Z := if Qltb q 0 then Qceiling q else Qfloor q.

(** The pixel arrays of [Player] and [Coin]. *)
Definition Player_STAND : list (list Z) :=
  [ [0; 0; 1; 1; 1; 0; 0; 0];
    [0; 1; 1; 1; 1; 1; 0; 0];
    [0; 1; 2; 2; 2; 1; 0; 0];
    [0; 2; 2; 2; 2; 2; 0; 0];
    [0; 0; 1; 1; 1; 0; 0; 0];
    [0; 1; 1; 1; 1; 1; 0; 0];
    [0; 1; 0; 0; 0; 1; 0; 0];
    [0; 1; 0; 0; 0; 1; 0; 0];
    [0; 0; 0; 0; 0; 0; 0; 0];
    [0; 0; 0; 0; 0; 0; 0; 0];
    [0; 0; 0; 0; 0; 0; 0; 0];
    [0; 0; 0; 0; 0; 0; 0; 0];
    [0; 0; 0; 0; 0; 0; 0; 0];
    [0; 0; 0; 0; 0; 0; 0; 0];
    [0; 0; 0; 0; 0; 0; 0; 0];
    [0; 0; 0; 0; 0; 0; 0; 0] ]%Z.

Definition Player_WALK1 : list (list Z) :=
  [ [0; 0; 1; 1; 1; 0; 0; 0];
    [0; 1; 1; 1; 1; 1; 0; 0];
    [0; 1; 2; 2; 2; 1; 0; 0];
    [0; 2; 2; 2; 2; 2; 0; 0];
    [0; 0; 1; 1; 1; 0; 0; 0];
    [0; 1; 1; 1; 1; 1; 0; 0];
    [0; 0; 1; 0; 0; 1; 0; 0];
    [0; 1; 0; 0; 0; 1; 0; 0];
    [0; 0; 0; 0; 0; 0; 0; 0];
    [0; 0; 0; 0; 0; 0; 0; 0];
    [0; 0; 0; 0; 0; 0; 0; 0];
    [0; 0; 0; 0; 0; 0; 0; 0];
    [0; 0; 0; 0; 0; 0; 0; 0];
    [0; 0; 0; 0; 0; 0; 0; 0];
    [0; 0; 0; 0; 0; 0; 0; 0];
    [0; 0; 0; 0; 0; 0; 0; 0] ]%Z.

Definition Player_JUMP : list (list Z) :=
  [ [0; 0; 1; 1; 1; 0; 0; 0];
    [0; 1; 1; 1; 1; 1; 0; 0];
    [0; 1; 2; 2; 2; 1; 0; 0];
    [0; 2; 2; 2; 2; 2; 0; 0];
    [0; 0; 1; 1; 1; 0; 0; 0];
    [0; 1; 1; 1; 1; 1; 0; 0];
    [0; 1; 0; 0; 0; 1; 0; 0];
    [0; 1; 0; 0; 0; 1; 0; 0];
    [0; 0; 0; 0; 0; 0; 0; 0];
    [0; 0; 0; 0; 0; 0; 0; 0];
    [0; 0; 0; 0; 0; 0; 0; 0];
    [0; 0; 0; 0; 0; 0; 0; 0];
    [0; 0; 0; 0; 0; 0; 0; 0];
    [0; 0; 0; 0; 0; 0; 0; 0];
    [0; 0; 0; 0; 0; 0; 0; 0];
    [0; 0; 0; 0; 0; 0; 0; 0] ]%Z.

Definition Player_DEAD : list (list Z) :=
  [ [0; 0; 1; 0; 0; 1; 0; 0];
    [0; 1; 1; 0; 0; 1; 1; 0];
    [0; 1; 1; 1; 1; 1; 1; 0];
    [0; 0; 1; 1; 1; 1; 0; 0];
    [0; 0; 1; 2; 2; 1; 0; 0];
    [0; 1; 1; 2; 2; 1; 1; 0];
    [0; 1; 0; 1; 1; 0; 1; 0];
    [0; 0; 0; 1; 1; 0; 0; 0];
    [0; 0; 0; 0; 0; 0; 0; 0];
    [0; 0; 0; 0; 0; 0; 0; 0];
    [0; 0; 0; 0; 0; 0; 0; 0];
    [0; 0; 0; 0; 0; 0; 0; 0];
    [0; 0; 0; 0; 0; 0; 0; 0];
    [0; 0; 0; 0; 0; 0; 0; 0];
    [0; 0; 0; 0; 0; 0; 0; 0];
    [0; 0; 0; 0; 0; 0; 0; 0] ]%Z.

Definition Coin_SPRITE : list (list Z) :=
  [ [0; 0; 1; 1; 1; 1; 0; 0];
    [0; 1; 1; 1; 1; 1; 1; 0];
    [0; 1; 1; 0; 0; 1; 1; 0];
    [0; 1; 1; 0; 0; 1; 1; 0];
    [0; 1; 1; 0; 0; 1; 1; 0];
    [0; 1; 1; 0; 0; 1; 1; 0];
    [0; 1; 1; 1; 1; 1; 1; 0];
    [0; 0; 1; 1; 1; 1; 0; 0] ]%Z.

Definition Player_draw (s : Player.t) (surface : Surface) (scroll_x : Q)
  : option Surface :=
  let x_pos := py_int (Player.x s - scroll_x) in
  let y_pos := py_int (Player.y s) in
  let sprite :=
    if negb (Player.alive s) then Player_DEAD
    else if negb (Player.grounded s) then Player_JUMP
         else if negb (Player.frame s =? 0)%Z then Player_WALK1
              else Player_STAND in
  let flip := if Qltb (Player.vel_x s) 0 then true else false in
  draw_sprite surface sprite 8 16 x_pos y_pos flip.

Definition Coin_draw (c : Coin) (surface : Surface) (scroll_x : Q)
  : option Surface :=
  let x0 := py_int (c_x c - scroll_x) in
  let y0 := py_int (c_y c) in
  draw_sprite surface Coin_SPRITE 8 8 x0 y0 false.

(** Body of the loop of [Goal.draw]. *)
Definition Goal_draw_row (x0 y0 : Z) (surface : Surface) (dy : nat)
  : Surface :=
  let surface := draw_pixel surface (x0 + 7) (y0 + Z.of_nat dy) COL_DARK2 in
  draw_pixel surface (x0 + 8) (y0 + Z.of_nat dy) COL_DARK2.

Definition Goal_draw (g : Goal) (surface : Surface) (scroll_x : Q)
  : Surface :=
  let x0 := py_int (g_x g - scroll_x) in
  let y0 := py_int (g_y g) in
  fold_left (Goal_draw_row x0 y0) (seq 0 32) surface.

(** ** Text *)








(** [s'] differs from [s] only at pixels of the screen inside [box], where it
    has one of the colours [cols]. *)
Definition drawn_within (box : Z -> Z -> Prop) (cols : list Color)
  (s s' : Surface) : Prop :=
  forall px py,
    s' px py = s px py \/
    (box px py /\ on_screen px py = true /\ In (s' px py) cols).

(** * Properties *)

(** ** Comparisons *)

Lemma Qltb_true (a b : Q) : Qltb a b = true <-> a < b.
Proof.
  unfold Qltb. rewrite negb_true_iff, <- not_true_iff_false, Qle_bool_iff.
  split; [apply Qnot_le_lt | apply Qlt_not_le].
Qed.

Lemma Qltb_false (a b : Q) : Qltb a b = false <-> b <= a.
Proof.
  unfold Qltb. rewrite negb_false_iff. apply Qle_bool_iff.
Qed.

(** Splits on one boolean comparison of the goal, turning it into an
    inequality in the context. *)
Ltac qsplit :=
  match goal with
  | |- context [Qltb ?a ?b] =>
      let E := fresh "E" in
      destruct (Qltb a b) eqn:E;
      [apply Qltb_true in E | apply Qltb_false in E]
  | H : context [if Qltb ?a ?b then _ else _] |- _ =>
      let E := fresh "E" in
      destruct (Qltb a b) eqn:E;
      [apply Qltb_true in E | apply Qltb_false in E]
  end.

Lemma py_max_spec (a b : Q) :
  a <= py_max a b /\ b <= py_max a b /\ (py_max a b = a \/ py_max a b = b).
Proof.
  unfold py_max. qsplit; repeat split; auto; lra.
Qed.

Lemma py_min_spec (a b : Q) :
  py_min a b <= a /\ py_min a b <= b /\ (py_min a b = a \/ py_min a b = b).
Proof.
  unfold py_min. qsplit; repeat split; auto; lra.
Qed.

Lemma SCROLL_EDGE_value : inject_Z SCROLL_EDGE == 80.
Proof. reflexivity. Qed.

(** ** Camera *)

Section CameraFacts.

Variables target_x scroll_x : Q.

Lemma update_nonneg : 0 <= Camera.update target_x scroll_x.
Proof.
  unfold Camera.update; cbv zeta. repeat qsplit; lra.
Qed.

Lemma update_monotone : scroll_x <= Camera.update target_x scroll_x.
Proof.
  unfold Camera.update; cbv zeta. repeat qsplit; lra.
Qed.

Lemma update_follow :
  0 <= scroll_x ->
  inject_Z SCROLL_EDGE < target_x - scroll_x ->
  Camera.update target_x scroll_x = target_x - inject_Z SCROLL_EDGE.
Proof.
  intros H0 H. unfold Camera.update.
  rewrite (proj2 (Qltb_true _ _) H). qsplit; [lra | reflexivity].
Qed.

Lemma update_hold :
  0 <= scroll_x ->
  target_x - scroll_x <= inject_Z SCROLL_EDGE ->
  Camera.update target_x scroll_x = scroll_x.
Proof.
  intros H0 H. unfold Camera.update.
  rewrite (proj2 (Qltb_false _ _) H). qsplit; [lra | reflexivity].
Qed.

End CameraFacts.

(** ** Player: what each step leaves alone *)

Ltac branches :=
  repeat match goal with
         | |- context [if ?b then _ else _] => destruct b eqn:?
         end; simpl; auto.

Lemma hits_true (s : Player.t) (p : Platform) :
  Player.hits s p = true <->
  Player.x s < p_x p + p_width p /\ p_x p < Player.x s + Player.width s /\
  Player.y s < p_y p + p_height p /\ p_y p < Player.y s + Player.height s.
Proof.
  unfold Player.hits. rewrite !andb_true_iff, !Qltb_true. tauto.
Qed.

Lemma hits_false (s : Player.t) (p : Platform) :
  Player.hits s p = false <->
  ~ (Player.x s < p_x p + p_width p /\ p_x p < Player.x s + Player.width s /\
     Player.y s < p_y p + p_height p /\ p_y p < Player.y s + Player.height s).
Proof.
  rewrite <- hits_true. destruct (Player.hits s p); intuition congruence.
Qed.

Lemma apply_input_box (keys : Keys) (s : Player.t) :
  let s' := fst (Player.apply_input keys s) in
  Player.x s' = Player.x s /\ Player.y s' = Player.y s /\
  Player.width s' = Player.width s /\ Player.height s' = Player.height s /\
  Player.alive s' = Player.alive s.
Proof.
  unfold Player.apply_input. branches; repeat split; congruence.
Qed.

Lemma resolve_x_frame (s : Player.t) (p : Platform) :
  let s' := Player.resolve_x s p in
  Player.y s' = Player.y s /\ Player.width s' = Player.width s /\
  Player.height s' = Player.height s /\ Player.vel_y s' = Player.vel_y s /\
  Player.grounded s' = Player.grounded s /\ Player.alive s' = Player.alive s.
Proof.
  unfold Player.resolve_x. branches; repeat split.
Qed.

Lemma resolve_y_frame (s : Player.t) (p : Platform) :
  let s' := Player.resolve_y s p in
  Player.x s' = Player.x s /\ Player.width s' = Player.width s /\
  Player.height s' = Player.height s /\ Player.vel_x s' = Player.vel_x s /\
  Player.alive s' = Player.alive s.
Proof.
  unfold Player.resolve_y. branches; repeat split.
Qed.

Lemma horizontal_frame (l : list Platform) (s : Player.t) :
  let s' := fold_left Player.resolve_x l s in
  Player.y s' = Player.y s /\ Player.width s' = Player.width s /\
  Player.height s' = Player.height s /\ Player.vel_y s' = Player.vel_y s /\
  Player.grounded s' = Player.grounded s /\ Player.alive s' = Player.alive s.
Proof.
  revert s. induction l as [|p l IH]; intro s; simpl.
  - repeat split.
  - specialize (IH (Player.resolve_x s p)). simpl in IH.
    pose proof (resolve_x_frame s p) as F. simpl in F.
    intuition congruence.
Qed.

Lemma vertical_frame (l : list Platform) (s : Player.t) :
  let s' := fold_left Player.resolve_y l s in
  Player.x s' = Player.x s /\ Player.width s' = Player.width s /\
  Player.height s' = Player.height s /\ Player.vel_x s' = Player.vel_x s /\
  Player.alive s' = Player.alive s.
Proof.
  revert s. induction l as [|p l IH]; intro s; simpl.
  - repeat split.
  - specialize (IH (Player.resolve_y s p)). simpl in IH.
    pose proof (resolve_y_frame s p) as F. simpl in F.
    intuition congruence.
Qed.

Lemma animate_frame (s : Player.t) :
  let s' := Player.animate s in
  Player.x s' = Player.x s /\ Player.y s' = Player.y s /\
  Player.width s' = Player.width s /\ Player.height s' = Player.height s /\
  Player.vel_x s' = Player.vel_x s /\ Player.vel_y s' = Player.vel_y s /\
  Player.grounded s' = Player.grounded s /\ Player.alive s' = Player.alive s.
Proof.
  unfold Player.animate. branches; repeat split; congruence.
Qed.

Lemma update_unfold (keys : Keys) (platforms : list Platform) (s : Player.t) :
  Player.update keys platforms s =
  (Player.animate (Player.physics platforms (fst (Player.apply_input keys s))),
   snd (Player.apply_input keys s)).
Proof.
  unfold Player.update. destruct (Player.apply_input keys s); reflexivity.
Qed.

(** ** Player: the horizontal pass *)

Ltac crunch :=
  repeat (qsplit ||
          match goal with
          | |- context [if ?b then _ else _] => destruct b eqn:?
          end);
  simpl in *.

Lemma resolve_x_stopped (s : Player.t) (p : Platform) :
  Player.vel_x s = 0 -> Player.resolve_x s p = s.
Proof.
  destruct s; simpl; intros ->. unfold Player.resolve_x; simpl.
  destruct (Player.hits _ p); reflexivity.
Qed.

Lemma horizontal_stopped (l : list Platform) (s : Player.t) :
  Player.vel_x s = 0 -> fold_left Player.resolve_x l s = s.
Proof.
  intro H. induction l as [|p l IH]; simpl; [reflexivity|].
  rewrite resolve_x_stopped by exact H. exact IH.
Qed.

Lemma horizontal_miss (l : list Platform) (m : Player.t) :
  (forall q, In q l -> Player.hits m q = false) ->
  fold_left Player.resolve_x l m = m.
Proof.
  induction l as [|p l IH]; simpl; intro H; [reflexivity|].
  unfold Player.resolve_x at 2. rewrite (H p) by auto. apply IH. auto.
Qed.

Lemma resolve_x_hit (s : Player.t) (p : Platform) :
  Player.hits s p = true ->
  let s' := Player.resolve_x s p in
  Player.vel_x s' = 0 /\
  (0 < Player.vel_x s -> Player.x s' = p_x p - Player.width s) /\
  (Player.vel_x s < 0 -> Player.x s' = p_x p + p_width p).
Proof.
  intro H. unfold Player.resolve_x. rewrite H. crunch.
  all: repeat split; intros; try reflexivity; lra.
Qed.

(** The horizontal pass stops at the first platform the moved box hits. *)
Lemma horizontal_first (l1 l2 : list Platform) (p : Platform) (m : Player.t) :
  (forall q, In q l1 -> Player.hits m q = false) ->
  Player.hits m p = true ->
  fold_left Player.resolve_x (l1 ++ p :: l2) m = Player.resolve_x m p.
Proof.
  intros Hmiss Hhit. rewrite fold_left_app. simpl.
  rewrite (horizontal_miss l1 m Hmiss).
  apply horizontal_stopped. apply (resolve_x_hit m p Hhit).
Qed.

Lemma resolve_x_speed (s : Player.t) (p : Platform) :
  speed_ok s -> speed_ok (Player.resolve_x s p).
Proof.
  unfold speed_ok, Player.resolve_x, PLAYER_MAX_SPEED. intros [H1 H2].
  crunch; lra.
Qed.

Lemma horizontal_speed (l : list Platform) (s : Player.t) :
  speed_ok s -> speed_ok (fold_left Player.resolve_x l s).
Proof.
  revert s. induction l as [|p l IH]; simpl; intros s H; [exact H|].
  apply IH, resolve_x_speed, H.
Qed.

(** What [physics] leaves of the horizontal pass. *)
Lemma physics_column (platforms : list Platform) (s : Player.t) :
  let h := fold_left Player.resolve_x platforms (Player.move_x s) in
  let s' := Player.physics platforms s in
  Player.x s' = Player.x h /\ Player.vel_x s' = Player.vel_x h /\
  Player.width s' = Player.width s /\ Player.height s' = Player.height s /\
  Player.alive s' = Player.alive s.
Proof.
  unfold Player.physics; cbv zeta.
  set (h := fold_left Player.resolve_x platforms (Player.move_x s)).
  pose proof (vertical_frame platforms (Player.move_y h)) as V.
  pose proof (horizontal_frame platforms (Player.move_x s)) as H.
  simpl in V, H. fold h in H. intuition congruence.
Qed.

Lemma apply_input_speed (keys : Keys) (s : Player.t) :
  speed_ok s -> speed_ok (fst (Player.apply_input keys s)).
Proof.
  unfold speed_ok, Player.apply_input, py_max, py_min,
    PLAYER_MAX_SPEED, PLAYER_ACCEL, PLAYER_DECEL.
  intros [H1 H2]. crunch; lra.
Qed.

Lemma update_speed (keys : Keys) (platforms : list Platform) (s : Player.t) :
  speed_ok s -> speed_ok (fst (Player.update keys platforms s)).
Proof.
  intro H. rewrite update_unfold. simpl.
  apply (apply_input_speed keys) in H.
  set (s1 := fst (Player.apply_input keys s)) in *.
  pose proof (animate_frame (Player.physics platforms s1)) as A.
  pose proof (physics_column platforms s1) as P. simpl in A, P.
  assert (M : speed_ok (Player.move_x s1)) by exact H.
  apply (horizontal_speed platforms) in M.
  unfold speed_ok in *.
  destruct A as (_ & _ & _ & _ & -> & _). destruct P as (_ & -> & _).
  exact M.
Qed.

Lemma run_updates_speed (platforms : list Platform) (ks : list Keys)
  (s : Player.t) :
  speed_ok s -> speed_ok (run_updates platforms ks s).
Proof.
  unfold run_updates. revert s.
  induction ks as [|k ks IH]; simpl; intros s H; [exact H|].
  apply IH, update_speed, H.
Qed.

Lemma init_speed (x0 y0 : Q) : speed_ok (Player.init x0 y0).
Proof. unfold speed_ok, PLAYER_MAX_SPEED; simpl; lra. Qed.

(** ** Player: the vertical pass *)

Lemma resolve_y_stopped (s : Player.t) (p : Platform) :
  Player.vel_y s = 0 -> Player.resolve_y s p = s.
Proof.
  intro H. unfold Player.resolve_y. rewrite H.
  destruct (Player.hits s p); reflexivity.
Qed.

Lemma vertical_stopped (l : list Platform) (s : Player.t) :
  Player.vel_y s = 0 -> fold_left Player.resolve_y l s = s.
Proof.
  intro H. induction l as [|p l IH]; simpl; [reflexivity|].
  rewrite resolve_y_stopped by exact H. exact IH.
Qed.

Lemma vertical_miss (l : list Platform) (m : Player.t) :
  (forall q, In q l -> Player.hits m q = false) ->
  fold_left Player.resolve_y l m = m.
Proof.
  induction l as [|p l IH]; simpl; intro H; [reflexivity|].
  unfold Player.resolve_y at 2. rewrite (H p) by auto. apply IH. auto.
Qed.

Lemma resolve_y_hit (s : Player.t) (p : Platform) :
  Player.hits s p = true ->
  let s' := Player.resolve_y s p in
  (0 < Player.vel_y s ->
   Player.y s' = p_y p - Player.height s /\ Player.vel_y s' = 0 /\
   Player.grounded s' = true) /\
  (Player.vel_y s < 0 ->
   Player.y s' = p_y p + p_height p /\ Player.vel_y s' = 0 /\
   Player.grounded s' = Player.grounded s).
Proof.
  intro H. unfold Player.resolve_y. rewrite H. crunch.
  all: split; intros; repeat split; lra.
Qed.

Lemma vertical_first (l1 l2 : list Platform) (p : Platform) (m : Player.t) :
  (forall q, In q l1 -> Player.hits m q = false) ->
  Player.hits m p = true ->
  0 < Player.vel_y m \/ Player.vel_y m < 0 ->
  fold_left Player.resolve_y (l1 ++ p :: l2) m = Player.resolve_y m p.
Proof.
  intros Hmiss Hhit Hv. rewrite fold_left_app. simpl.
  rewrite (vertical_miss l1 m Hmiss).
  apply vertical_stopped.
  destruct (resolve_y_hit m p Hhit) as [F R].
  destruct Hv as [Hv|Hv]; [apply F in Hv | apply R in Hv]; tauto.
Qed.

(** While the second loop runs, a grounded player has already been
    stopped. *)
Lemma resolve_y_landed (s : Player.t) (p : Platform) :
  (Player.grounded s = true -> Player.vel_y s = 0) ->
  Player.grounded (Player.resolve_y s p) = true ->
  Player.vel_y (Player.resolve_y s p) = 0.
Proof.
  unfold Player.resolve_y. crunch; auto.
Qed.

Lemma vertical_landed (l : list Platform) (s : Player.t) :
  (Player.grounded s = true -> Player.vel_y s = 0) ->
  Player.grounded (fold_left Player.resolve_y l s) = true ->
  Player.vel_y (fold_left Player.resolve_y l s) = 0.
Proof.
  revert s. induction l as [|p l IH]; simpl; intros s H; [exact H|].
  apply IH. apply resolve_y_landed, H.
Qed.

(** The outcome of the second loop as soon as some platform is hit. *)
Lemma vertical_any_hit (l : list Platform) (m : Player.t) (p : Platform) :
  In p l -> Player.hits m p = true ->
  let s' := fold_left Player.resolve_y l m in
  (0 < Player.vel_y m ->
   Player.grounded s' = true /\ Player.vel_y s' = 0) /\
  (Player.vel_y m < 0 ->
   Player.grounded s' = Player.grounded m /\ Player.vel_y s' = 0).
Proof.
  induction l as [|p0 l IH]; simpl; [tauto|]. intros Hin Hhit.
  destruct (Player.hits m p0) eqn:H0.
  - destruct (resolve_y_hit m p0 H0) as [F R].
    split; intro Hv; [apply F in Hv | apply R in Hv];
      destruct Hv as (_ & V & G);
      rewrite (vertical_stopped l _ V); auto.
  - assert (E : Player.resolve_y m p0 = m)
      by (unfold Player.resolve_y; rewrite H0; reflexivity).
    rewrite E. destruct Hin as [->|Hin]; [congruence|]. auto.
Qed.

(** ** Claims on the player controller *)

(** C2 (as the code has it).  Take a platform [p] that the player's box does
    not intersect before the tick and that is the first platform, in list
    order, that the box intersects once [vel_x] has been added to [x].  After
    the tick the player is flush with [p] (right edge on [p]'s left edge when
    moving right, left edge on [p]'s right edge when moving left) and [vel_x]
    is zero.  The platforms that follow [p] in the list find [vel_x] already
    zero and move nothing: the first platform hit fixes the final position. *)
Theorem horizontal_flush_first_hit
  (keys : Keys) (l1 l2 : list Platform) (p : Platform) (s : Player.t) :
  let s1 := fst (Player.apply_input keys s) in
  let s' := fst (Player.update keys (l1 ++ p :: l2) s) in
  Player.hits s p = false ->
  (forall q, In q l1 -> Player.hits (Player.move_x s1) q = false) ->
  Player.hits (Player.move_x s1) p = true ->
  Player.vel_x s' = 0 /\
  (0 < Player.vel_x s1 \/ Player.vel_x s1 < 0) /\
  (0 < Player.vel_x s1 -> Player.x s' + Player.width s' == p_x p) /\
  (Player.vel_x s1 < 0 -> Player.x s' == p_x p + p_width p).
Proof.
  intros s1 s' Hb Hm Hh. unfold s'. rewrite update_unfold. simpl. fold s1.
  pose proof (animate_frame (Player.physics (l1 ++ p :: l2) s1)) as A.
  pose proof (physics_column (l1 ++ p :: l2) s1) as P. simpl in A, P.
  rewrite (horizontal_first l1 l2 p _ Hm Hh) in P.
  destruct (resolve_x_hit _ p Hh) as (V & R & L). simpl in R, L.
  destruct A as (-> & _ & -> & _ & -> & _).
  destruct P as (-> & -> & -> & _).
  pose proof (apply_input_box keys s) as B. simpl in B. fold s1 in B.
  destruct B as (Bx & By & Bw & Bh & _).
  split; [exact V|]. split.
  - apply hits_true in Hh. apply hits_false in Hb. simpl in Hh.
    rewrite <- Bx, <- By, <- Bw, <- Bh in Hb.
    destruct (Qlt_le_dec 0 (Player.vel_x s1)); [left; assumption|].
    destruct (Qlt_le_dec (Player.vel_x s1) 0); [right; assumption|].
    exfalso. apply Hb. lra.
  - split; intro Hv.
    + rewrite (R Hv). ring.
    + rewrite (L Hv). reflexivity.
Qed.

Lemma horizontal_flush_first_hit_witness :
  let s1 := fst (Player.apply_input hold_right runner) in
  let s' := fst (Player.update hold_right ([] ++ wall_a :: [wall_b]) runner) in
  Player.vel_x s' = 0 /\
  (0 < Player.vel_x s1 \/ Player.vel_x s1 < 0) /\
  (0 < Player.vel_x s1 -> Player.x s' + Player.width s' == p_x wall_a) /\
  (Player.vel_x s1 < 0 -> Player.x s' == p_x wall_a + p_width wall_a).
Proof.
  apply (horizontal_flush_first_hit hold_right [] [wall_b] wall_a runner).
  - reflexivity.
  - intros q [].
  - reflexivity.
Defined.

(** C2 as the spec words it fails: [wall_b] is the last platform of the list
    that the moved box intersects, the player did not touch it before the
    tick and moves right, yet the player ends flush with [wall_a], the first
    one, and still 0.5 px inside [wall_b]. *)
Lemma horizontal_last_hit_counterexample :
  let s1 := fst (Player.apply_input hold_right runner) in
  let s' := fst (Player.update hold_right [wall_a; wall_b] runner) in
  Player.hits runner wall_b = false /\
  Player.hits (Player.move_x s1) wall_b = true /\
  0 < Player.vel_x s1 /\
  ~ (Player.x s' + Player.width s' == p_x wall_b) /\
  Player.x s' + Player.width s' == p_x wall_a.
Proof.
  cbv zeta. repeat split; try reflexivity. intro H. discriminate H.
Qed.

(** C3.  The second loop of [physics] starts from the player moved by
    [vel_y] with [grounded] reset to false.  Whenever it visits a platform
    [p] that the player's box (as it is then) overlaps: falling, the bottom
    edge is put on [p]'s top, [vel_y] becomes 0 and [grounded] becomes true;
    rising, the top edge is put on [p]'s bottom, [vel_y] becomes 0 and
    [grounded] is left as it was, which is false.  Hence a tick on which the
    moved box overlaps some platform ends with [vel_y = 0], grounded when
    falling and not grounded when rising, and snapped to the first platform
    overlapped. *)
Theorem vertical_resolution (platforms : list Platform) (s : Player.t) :
  let h := fold_left Player.resolve_x platforms (Player.move_x s) in
  let m := Player.move_y h in
  let s' := Player.physics platforms s in
  s' = fold_left Player.resolve_y platforms m /\
  Player.y m = Player.y h + Player.vel_y h /\
  Player.grounded m = false /\
  (forall l1 p l2, platforms = l1 ++ p :: l2 ->
     let q := fold_left Player.resolve_y l1 m in
     let q' := Player.resolve_y q p in
     Player.hits q p = true ->
     (0 < Player.vel_y q ->
      Player.y q' + Player.height q' == p_y p /\
      Player.vel_y q' = 0 /\ Player.grounded q' = true) /\
     (Player.vel_y q < 0 ->
      Player.y q' == p_y p + p_height p /\ Player.vel_y q' = 0 /\
      Player.grounded q' = Player.grounded q /\
      Player.grounded q' = false)) /\
  (forall p, In p platforms -> Player.hits m p = true ->
     (0 < Player.vel_y m ->
      Player.grounded s' = true /\ Player.vel_y s' = 0) /\
     (Player.vel_y m < 0 ->
      Player.grounded s' = false /\ Player.vel_y s' = 0)) /\
  (forall l1 p l2, platforms = l1 ++ p :: l2 ->
     (forall q, In q l1 -> Player.hits m q = false) ->
     Player.hits m p = true ->
     (0 < Player.vel_y m -> Player.y s' + Player.height s' == p_y p) /\
     (Player.vel_y m < 0 -> Player.y s' == p_y p + p_height p)).
Proof.
  intros h m s'.
  assert (E : s' = fold_left Player.resolve_y platforms m) by reflexivity.
  split; [exact E|]. split; [reflexivity|]. split; [reflexivity|].
  split; [|split].
  - intros l1 p l2 _ q q' Hh.
    destruct (resolve_y_hit q p Hh) as [F R]. fold q' in F, R.
    assert (W : Player.height q' = Player.height q)
      by apply (resolve_y_frame q p).
    split; intro Hv.
    + destruct (F Hv) as (Y & V & G). repeat split; auto.
      rewrite Y, W. ring.
    + destruct (R Hv) as (Y & V & G). repeat split; auto.
      * rewrite Y. reflexivity.
      * rewrite G. destruct (Player.grounded q) eqn:Gq; [|reflexivity].
        exfalso. unfold q in Gq, Hv.
        rewrite (vertical_landed l1 m) in Hv; [lra | discriminate | exact Gq].
  - intros p Hin Hh. rewrite E.
    destruct (vertical_any_hit platforms m p Hin Hh) as [F R].
    split; [exact F|]. intro Hv. apply R in Hv. exact Hv.
  - intros l1 p l2 -> Hmiss Hh.
    assert (W : Player.height (Player.resolve_y m p) = Player.height m)
      by apply (resolve_y_frame m p).
    destruct (resolve_y_hit m p Hh) as [F R].
    split; intro Hv; rewrite E, (vertical_first l1 l2 p m Hmiss Hh); auto.
    + destruct (F Hv) as (Y & _). rewrite Y, W. ring.
    + destruct (R Hv) as (Y & _). rewrite Y. reflexivity.
Qed.

Lemma vertical_resolution_witness :
  Player.grounded (Player.physics level_platforms above_ground) = true /\
  Player.vel_y (Player.physics level_platforms above_ground) = 0.
Proof.
  destruct (vertical_resolution level_platforms above_ground)
    as (_ & _ & _ & _ & H & _).
  apply (H (mkPlatform 0 128 200 16)).
  - left. reflexivity.
  - reflexivity.
  - reflexivity.
Defined.

Lemma existsb_false {A : Type} (f : A -> bool) (l : list A) :
  existsb f l = false -> forall a, In a l -> f a = false.
Proof.
  intros H a Hin. destruct (f a) eqn:E; [|reflexivity].
  rewrite <- H. symmetry. apply existsb_exists. eauto.
Qed.

(** What [apply_input] does to the vertical state of a living player. *)
Lemma apply_input_jump (keys : Keys) (s : Player.t) :
  Player.alive s = true ->
  let r := Player.apply_input keys s in
  (held_jump keys && Player.grounded s = true ->
   Player.vel_y (fst r) = - JUMP_IMPULSE /\
   Player.grounded (fst r) = false /\ snd r = [SfxJump]) /\
  (held_jump keys && Player.grounded s = false ->
   Player.vel_y (fst r) = Player.vel_y s /\
   Player.grounded (fst r) = Player.grounded s /\ snd r = []).
Proof.
  unfold Player.apply_input, held_jump. intros ->. simpl.
  destruct (K_LEFT keys || K_a keys), (K_RIGHT keys || K_d keys),
    (Qltb 0 (Player.vel_x s)), (Qltb (Player.vel_x s) 0),
    (K_z keys || K_SPACE keys), (Player.grounded s) eqn:G; simpl;
    rewrite ?G; simpl; split; intro; repeat split; congruence.
Qed.

Lemma apply_input_release (keys : Keys) (s : Player.t) :
  Player.grounded s = false ->
  Player.apply_input keys s = Player.apply_input (release_jump keys) s.
Proof.
  unfold Player.apply_input, release_jump. intros G. simpl.
  destruct (Player.alive s); simpl; [|reflexivity].
  destruct (K_LEFT keys || K_a keys), (K_RIGHT keys || K_d keys),
    (Qltb 0 (Player.vel_x s)), (Qltb (Player.vel_x s) 0); simpl;
    rewrite G, andb_false_r; reflexivity.
Qed.

(** C9 (as the code has it).  A jump pressed while grounded sets
    [vel_y = -JUMP_IMPULSE], clears [grounded] and plays the jump sound;
    gravity is added next, so the vertical move is made with
    [vel_y = -JUMP_IMPULSE + GRAVITY].  After the full tick [grounded] is
    false; [vel_y] is still [-JUMP_IMPULSE + GRAVITY] when the moved box
    overlaps no platform, and 0 when it overlaps one (the head bump).  A jump
    pressed while not grounded changes nothing: the tick is the one of the
    same keyboard with the jump keys up. *)
Theorem jump_takeoff (keys : Keys) (platforms : list Platform) (s : Player.t) :
  Player.alive s = true ->
  held_jump keys = true ->
  let s1 := fst (Player.apply_input keys s) in
  let m :=
    Player.move_y (fold_left Player.resolve_x platforms (Player.move_x s1)) in
  let s' := fst (Player.update keys platforms s) in
  (Player.grounded s = true ->
   Player.vel_y s1 = - JUMP_IMPULSE /\ Player.grounded s1 = false /\
   snd (Player.apply_input keys s) = [SfxJump] /\
   snd (Player.update keys platforms s) = [SfxJump] /\
   Player.vel_y m = - JUMP_IMPULSE + GRAVITY /\
   Player.grounded s' = false /\
   ((forall p, In p platforms -> Player.hits m p = false) ->
    Player.vel_y s' = - JUMP_IMPULSE + GRAVITY) /\
   (forall p, In p platforms -> Player.hits m p = true ->
    Player.vel_y s' = 0)) /\
  (Player.grounded s = false ->
   Player.vel_y s1 = Player.vel_y s /\ Player.grounded s1 = false /\
   snd (Player.apply_input keys s) = [] /\
   Player.update keys platforms s =
   Player.update (release_jump keys) platforms s).
Proof.
  intros Ha Hj s1 m s'.
  destruct (apply_input_jump keys s Ha) as [J N]. simpl in J, N.
  rewrite Hj in J, N. simpl in J, N. split; intro G.
  - destruct (J G) as (V & G1 & S1). fold s1 in V, G1.
    assert (Vm : Player.vel_y m = - JUMP_IMPULSE + GRAVITY).
    { unfold m.
      pose proof (horizontal_frame platforms (Player.move_x s1)) as H.
      simpl in H. simpl. destruct H as (_ & _ & _ & -> & _).
      rewrite V. reflexivity. }
    assert (Neg : Player.vel_y m < 0)
      by (rewrite Vm; unfold JUMP_IMPULSE, GRAVITY; lra).
    assert (Gm : Player.grounded m = false) by reflexivity.
    pose proof (animate_frame (Player.physics platforms s1)) as A.
    simpl in A. destruct A as (_ & _ & _ & _ & _ & Av & Ag & _).
    assert (E : s' = Player.animate (fold_left Player.resolve_y platforms m)).
    { unfold s'. rewrite update_unfold. reflexivity. }
    change (Player.physics platforms s1)
      with (fold_left Player.resolve_y platforms m) in Av, Ag.
    rewrite <- E in Av, Ag.
    assert (Hit : forall p, In p platforms -> Player.hits m p = true ->
                  Player.grounded s' = false /\ Player.vel_y s' = 0).
    { intros p Hin Hh.
      destruct (vertical_any_hit platforms m p Hin Hh) as [_ R].
      destruct (R Neg) as [Rg Rv]. rewrite Av, Ag, Rg, Rv. auto. }
    assert (Miss : (forall p, In p platforms -> Player.hits m p = false) ->
                   Player.grounded s' = false /\
                   Player.vel_y s' = - JUMP_IMPULSE + GRAVITY).
    { intro Hm. rewrite Av, Ag, (vertical_miss platforms m Hm). auto. }
    repeat split; auto.
    + rewrite update_unfold. exact S1.
    + destruct (existsb (Player.hits m) platforms) eqn:Ex.
      * apply existsb_exists in Ex. destruct Ex as (p & Hin & Hh).
        apply (Hit p Hin Hh).
      * apply Miss. apply existsb_false. exact Ex.
    + intro Hm. apply (Miss Hm).
    + intros p Hin Hh. apply (Hit p Hin Hh).
  - destruct (N G) as (V & G1 & S1). fold s1 in V, G1.
    repeat split; auto; try congruence.
    unfold Player.update. rewrite <- apply_input_release by exact G.
    reflexivity.
Qed.

(** The spec's scenario: from the spawn point with [grounded] set and the
    jump key down, one tick in level 1-1 leaves
    [vel_y = -JUMP_IMPULSE + GRAVITY] and [grounded = false]. *)
Lemma jump_takeoff_witness :
  let s' := fst (Player.update press_jump level_platforms spawn_grounded) in
  Player.vel_y s' = - JUMP_IMPULSE + GRAVITY /\ Player.grounded s' = false.
Proof.
  destruct (jump_takeoff press_jump level_platforms spawn_grounded
              eq_refl eq_refl) as [H _].
  destruct (H eq_refl) as (_ & _ & _ & _ & _ & G & V & _).
  split; [|exact G]. apply V. intros p Hin. simpl in Hin.
  repeat (destruct Hin as [<-|Hin]; [reflexivity|]). destruct Hin.
Defined.

(** C9 as the spec words it fails under a platform.  In a session of [main]
    where ENTER is followed by 90 passes with the right arrow held, the
    player stands on the ground at x = 164, below the floating platform at
    (160, 96).  A jump pressed on the next pass is taken ([SfxJump] is
    played) but the tick ends with [vel_y = 0], not
    [-JUMP_IMPULSE + GRAVITY]. *)
Lemma jump_head_bump_counterexample :
  exists w w',
    main (start_and_run 90) = Some w /\
    main (start_and_run 90 ++ [([], press_jump)]) = Some w' /\
    GameState.state (game_state w) = PLAYING /\
    Player.alive (player w) = true /\
    Player.grounded (player w) = true /\
    held_jump press_jump = true /\
    played w' = played w ++ [SfxJump] /\
    Player.vel_y (player w') = 0 /\
    ~ (Player.vel_y (player w') == - JUMP_IMPULSE + GRAVITY).
Proof.
  destruct (main (start_and_run 90)) as [w|] eqn:E1;
    [|vm_compute in E1; discriminate E1].
  destruct (main (start_and_run 90 ++ [([], press_jump)])) as [w'|] eqn:E2;
    [|vm_compute in E2; discriminate E2].
  exists w, w'.
  vm_compute in E1. vm_compute in E2.
  injection E1 as <-. injection E2 as <-.
  repeat split; try reflexivity. intro H. discriminate H.
Qed.

(** ** The coin loop *)

Arguments Camera.update : simpl never.
Arguments Player.update : simpl never.
Arguments Player.init : simpl never.
Arguments Coin_update : simpl never.
Arguments coin_hit : simpl never.
Arguments goal_hit : simpl never.

Lemma coin_hit_update (p : Player.t) (c : Coin) :
  coin_hit p (Coin_update c) = coin_hit p c.
Proof. reflexivity. Qed.

Lemma store_fresh (c' : Coin) (l : list Coin) :
  ~ In (c_id c') (map c_id l) -> store c' l = l.
Proof.
  unfold store. induction l as [|c l IH]; simpl; intro H; [reflexivity|].
  destruct (Nat.eqb_spec (c_id c) (c_id c')) as [E|_]; [tauto|].
  f_equal. apply IH. tauto.
Qed.

Lemma store_at (pre rest : list Coin) (c c' : Coin) :
  c_id c' = c_id c ->
  NoDup (map c_id (pre ++ c :: rest)) ->
  store c' (pre ++ c :: rest) = pre ++ c' :: rest.
Proof.
  intros E N. rewrite map_app in N. simpl in N.
  pose proof (NoDup_remove_2 _ _ _ N) as F.
  rewrite in_app_iff in F. rewrite <- E in F.
  unfold store. rewrite map_app. simpl. rewrite E at 1.
  rewrite Nat.eqb_refl.
  fold (store c' pre). fold (store c' rest).
  rewrite !store_fresh by tauto. reflexivity.
Qed.

Lemma list_remove_at (pre rest : list Coin) (c : Coin) (id : nat) :
  c_id c = id ->
  ~ In id (map c_id pre) ->
  list_remove id (pre ++ c :: rest) = Some (pre ++ rest).
Proof.
  intros <-. induction pre as [|a pre IH]; simpl; intro H.
  - rewrite Nat.eqb_refl. reflexivity.
  - destruct (Nat.eqb_spec (c_id a) (c_id c)) as [E|_]; [tauto|].
    rewrite IH by tauto. reflexivity.
Qed.

Lemma award_one (g : GameState.t) :
  GameState.set_score (GameState.score g + 200)%Z
    (GameState.set_coins (GameState.coins g + 1)%Z g) = award 1 g.
Proof. reflexivity. Qed.

Lemma award_award (j k : Z) (g : GameState.t) :
  award k (award j g) = award (j + k) g.
Proof. unfold award. cbn -[Z.mul Z.add]. f_equal; lia. Qed.

Lemma award_zero (g : GameState.t) : award 0 g = g.
Proof. destruct g. unfold award. cbn -[Z.mul Z.add]. f_equal; lia. Qed.

(** The loop over the copy, from any point of it: [pre] holds the coins
    already visited and kept, [rest] those still to visit. *)
Lemma collect_loop (rest : list Coin) :
  forall (pre : list Coin) (w : World),
    coins w = pre ++ rest ->
    NoDup (map c_id (pre ++ rest)) ->
    exists w',
      fold_left collect_step rest (Some w) = Some w' /\
      coins w' = pre ++ left_over (player w) rest /\
      game_state w' = award (touched (player w) rest) (game_state w) /\
      played w' =
        played w ++
        repeat SfxCoin (length (filter (coin_hit (player w)) rest)) /\
      player w' = player w /\ platforms w' = platforms w /\
      goal w' = goal w /\ CAMERA w' = CAMERA w /\ running w' = running w.
Proof.
  unfold left_over, touched.
  induction rest as [|c rest IH]; intros pre w Hc N.
  - exists w. simpl. rewrite award_zero, !app_nil_r.
    rewrite app_nil_r in Hc. repeat split; auto.
  - simpl fold_left.
    rewrite coin_hit_update, Hc.
    rewrite (store_at pre rest c (Coin_update c) eq_refl N).
    simpl filter.
    destruct (coin_hit (player w) c) eqn:Hit; simpl negb; cbv iota.
    + rewrite (list_remove_at pre rest (Coin_update c) (c_id c) eq_refl).
      2:{ rewrite map_app in N. simpl in N.
          apply NoDup_remove_2 in N. rewrite in_app_iff in N. tauto. }
      rewrite award_one.
      match goal with
      | |- context [fold_left collect_step rest (Some ?w1)] =>
          destruct (IH pre w1) as (w' & R & Cs & G & P & F)
      end.
      * reflexivity.
      * rewrite map_app in *. simpl in N. apply NoDup_remove_1 in N.
        exact N.
      * exists w'. simpl in Cs, G, P, F.
        split; [exact R|]. split; [exact Cs|]. split.
        { rewrite G, award_award. f_equal. simpl length. lia. }
        split; [|exact F].
        rewrite P, <- app_assoc. reflexivity.
    + match goal with
      | |- context [fold_left collect_step rest (Some ?w1)] =>
          destruct (IH (pre ++ [Coin_update c]) w1)
            as (w' & R & Cs & G & P & F)
      end.
      * simpl. rewrite <- app_assoc. reflexivity.
      * rewrite <- app_assoc. simpl. rewrite map_app in *. exact N.
      * exists w'. simpl in Cs, G, P, F.
        split; [exact R|]. split; [|auto].
        rewrite Cs, <- app_assoc. reflexivity.
Qed.

Lemma tick_coins_shape (w : World) :
  distinct_coins w ->
  exists w',
    tick_coins w = Some w' /\
    coins w' = left_over (player w) (coins w) /\
    game_state w' = award (touched (player w) (coins w)) (game_state w) /\
    played w' =
      played w ++
      repeat SfxCoin (length (filter (coin_hit (player w)) (coins w))) /\
    player w' = player w /\ platforms w' = platforms w /\
    goal w' = goal w /\ CAMERA w' = CAMERA w /\ running w' = running w.
Proof.
  intro N. apply (collect_loop (coins w) [] w eq_refl N).
Qed.

(** ** The stages of a PLAYING tick before the coin loop *)

Lemma update_sounds (keys : Keys) (platforms : list Platform) (s : Player.t) :
  snd (Player.update keys platforms s) = [] \/
  snd (Player.update keys platforms s) = [SfxJump].
Proof.
  rewrite update_unfold. simpl. unfold Player.apply_input.
  branches.
Qed.

Lemma before_coins_shape (keys : Keys) (w : World) :
  let b := before_coins keys w in
  let g := game_state w in
  let gb := game_state b in
  let respawn := falls keys w && negb (last_life w) in
  platforms b = platforms w /\ coins b = coins w /\ goal b = goal w /\
  running b = running w /\
  player b =
    (if respawn then Player.init 32 100 else updated_player keys w) /\
  CAMERA b =
    Camera.update (Player.x (player b)) (if respawn then 0 else CAMERA w) /\
  GameState.timer gb = (GameState.timer g + 1)%Z /\
  GameState.time gb =
    (if ((GameState.timer g + 1) mod 60 =? 0)%Z
     then GameState.time g - 1 else GameState.time g)%Z /\
  GameState.lives gb =
    (if falls keys w then GameState.lives g - 1 else GameState.lives g)%Z /\
  GameState.score gb = GameState.score g /\
  GameState.coins gb = GameState.coins g /\
  GameState.state gb =
    (if (falls keys w && last_life w) || expires w
     then GAME_OVER else GameState.state g) /\
  played b =
    played w ++
    (if expires w then [SfxGameover] else []) ++
    snd (Player.update keys (platforms w) (player w)) ++
    (if falls keys w
     then if last_life w then [SfxGameover] else [SfxDamage]
     else []).
Proof.
  unfold before_coins, tick_camera, tick_fall, tick_player, tick_timer,
    falls, updated_player, expires, last_life.
  cbn -[Z.add Z.sub Z.modulo Z.eqb Z.leb Qltb inject_Z].
  destruct ((GameState.timer (game_state w) + 1) mod 60 =? 0)%Z;
    [destruct (GameState.time (game_state w) - 1 <=? 0)%Z|];
    cbn -[Z.add Z.sub Z.modulo Z.eqb Z.leb Qltb inject_Z];
    destruct (Player.update keys (platforms w) (player w)) as [p snd];
    cbn -[Z.add Z.sub Z.modulo Z.eqb Z.leb Qltb inject_Z];
    destruct (Qltb (inject_Z GB_H) (Player.y p));
    cbn -[Z.add Z.sub Z.modulo Z.eqb Z.leb Qltb inject_Z];
    try destruct (GameState.lives (game_state w) - 1 <=? 0)%Z;
    cbn -[Z.add Z.sub Z.modulo Z.eqb Z.leb Qltb inject_Z];
    repeat split; rewrite ?app_nil_r, <- ?app_assoc; reflexivity.
Qed.

(** ** A whole PLAYING tick *)

Lemma left_over_ids (p : Player.t) (l : list Coin) :
  map c_id (left_over p l) =
  map c_id (filter (fun c => negb (coin_hit p c)) l).
Proof.
  unfold left_over. rewrite map_map. reflexivity.
Qed.

Lemma ids_filter_incl (f : Coin -> bool) (l : list Coin) :
  incl (map c_id (filter f l)) (map c_id l).
Proof.
  intros id H. apply in_map_iff in H. destruct H as (c & E & H).
  apply filter_In in H. apply in_map_iff. exists c. tauto.
Qed.

Lemma ids_filter_NoDup (f : Coin -> bool) (l : list Coin) :
  NoDup (map c_id l) -> NoDup (map c_id (filter f l)).
Proof.
  induction l as [|c l IH]; simpl; intro N; [constructor|].
  inversion N as [|? ? Hn N']; subst.
  destruct (f c); simpl; auto.
  constructor; auto. intro H. apply Hn. apply (ids_filter_incl f l _ H).
Qed.

Lemma filter_split_length (f : Coin -> bool) (l : list Coin) :
  (length (filter (fun c => negb (f c)) l) + length (filter f l) =
   length l)%nat.
Proof.
  induction l as [|c l IH]; simpl; [reflexivity|].
  destruct (f c); simpl; lia.
Qed.

Lemma left_over_length (p : Player.t) (l : list Coin) :
  (Z.of_nat (length (left_over p l)) + touched p l = Z.of_nat (length l))%Z.
Proof.
  unfold left_over, touched. rewrite length_map.
  pose proof (filter_split_length (coin_hit p) l). lia.
Qed.

Lemma playing_tick_shape (keys : Keys) (w : World) :
  distinct_coins w ->
  exists w',
    playing_tick keys w = Some w' /\
    let b := before_coins keys w in
    let hit := goal_hit (player b) (goal w) in
    player w' = player b /\ CAMERA w' = CAMERA b /\
    platforms w' = platforms w /\ goal w' = goal w /\
    running w' = running w /\
    coins w' = left_over (player b) (coins w) /\
    game_state w' =
      (let g := award (touched (player b) (coins w)) (game_state b) in
       if hit then GameState.set_state VICTORY g else g) /\
    played w' =
      played b ++
      repeat SfxCoin (length (filter (coin_hit (player b)) (coins w))) ++
      (if hit then [SfxVictory] else []).
Proof.
  intro N.
  destruct (before_coins_shape keys w)
    as (Bp & Bc & Bg & Br & _). cbv zeta in *.
  set (b := before_coins keys w) in *.
  assert (Nb : distinct_coins b)
    by (unfold distinct_coins, coin_ids; rewrite Bc; exact N).
  destruct (tick_coins_shape b Nb)
    as (w1 & T & Cs & G & P & Pl & Ps & Gl & Cam & Run).
  change (playing_tick keys w) with (option_map tick_goal (tick_coins b)).
  rewrite T. simpl option_map. exists (tick_goal w1). split; [reflexivity|].
  unfold tick_goal. rewrite Pl, Gl, Bg.
  destruct (goal_hit (player b) (goal w)); simpl.
  - rewrite Pl, Cam, Ps, Gl, Run, Cs, G, P, Bc, Bp, Bg, Br, <- app_assoc.
    repeat split; reflexivity.
  - rewrite Pl, Cam, Ps, Gl, Run, Cs, G, P, Bc, Bp, Bg, Br, app_nil_r.
    repeat split; reflexivity.
Qed.

Lemma plays_app (s : Sound) (l1 l2 : list Sound) :
  plays s (l1 ++ l2) = (plays s l1 + plays s l2)%nat.
Proof. apply count_occ_app. Qed.

Lemma plays_repeat (s t : Sound) (n : nat) :
  plays s (repeat t n) = if Sound_eq_dec t s then n else 0%nat.
Proof.
  unfold plays. induction n as [|n IH]; simpl.
  - destruct (Sound_eq_dec t s); reflexivity.
  - destruct (Sound_eq_dec t s); simpl; rewrite IH;
      destruct (Sound_eq_dec t s); congruence.
Qed.

(** What a tick in any state does to the coins: none comes back, and each
    one that leaves the list is counted once. *)
Lemma tick_coins_ledger (keys : Keys) (w : World) :
  distinct_coins w ->
  exists w',
    tick keys w = Some w' /\
    distinct_coins w' /\
    incl (coin_ids w') (coin_ids w) /\
    (GameState.coins (game_state w') + Z.of_nat (length (coins w')) =
     GameState.coins (game_state w) + Z.of_nat (length (coins w)))%Z /\
    (GameState.score (game_state w') + 200 * Z.of_nat (length (coins w')) =
     GameState.score (game_state w) + 200 * Z.of_nat (length (coins w)))%Z.
Proof.
  intro N. unfold tick.
  destruct (GameState.state (game_state w)) eqn:St;
    try solve [exists w; repeat split; auto using incl_refl].
  destruct (playing_tick_shape keys w N)
    as (w' & T & _ & _ & _ & _ & _ & Cs & G & _). cbv zeta in *.
  destruct (before_coins_shape keys w)
    as (_ & _ & _ & _ & _ & _ & _ & _ & _ & Sc & Co & _). cbv zeta in *.
  set (b := before_coins keys w) in *. clearbody b.
  pose proof (left_over_length (player b) (coins w)) as L.
  exists w'. split; [exact T|].
  unfold distinct_coins, coin_ids. rewrite Cs, left_over_ids.
  split; [apply ids_filter_NoDup, N|].
  split; [apply ids_filter_incl|].
  rewrite G.
  destruct (goal_hit (player b) (goal w));
    cbn -[Z.add Z.mul Z.of_nat]; rewrite Sc, Co; split; lia.
Qed.

Lemma run_ticks_coins_ledger (ks : list Keys) :
  forall w : World,
    distinct_coins w ->
    exists w',
      run_ticks ks w = Some w' /\
      distinct_coins w' /\
      incl (coin_ids w') (coin_ids w) /\
      (GameState.coins (game_state w') + Z.of_nat (length (coins w')) =
       GameState.coins (game_state w) + Z.of_nat (length (coins w)))%Z /\
      (GameState.score (game_state w') + 200 * Z.of_nat (length (coins w')) =
       GameState.score (game_state w) + 200 * Z.of_nat (length (coins w)))%Z.
Proof.
  induction ks as [|k ks IH]; intros w N; simpl run_ticks.
  - exists w. repeat split; auto using incl_refl.
  - destruct (tick_coins_ledger k w N) as (w1 & T & N1 & I1 & C1 & S1).
    rewrite T. destruct (IH w1 N1) as (w' & R & N' & I' & C' & S').
    exists w'. split; [exact R|]. split; [exact N'|].
    split; [eapply incl_tran; eauto|]. split; lia.
Qed.

(** ** Further properties of the camera and the player *)

(** [Camera.update]: the new offset is never negative, never smaller than the
    old one, and leaves the target at most [SCROLL_EDGE] to its right; from a
    non-negative offset it moves to [target_x - SCROLL_EDGE] exactly when the
    target is more than [SCROLL_EDGE] ahead, and otherwise stays. *)
Theorem camera_update_spec (target_x scroll_x : Q) :
  let s' := Camera.update target_x scroll_x in
  0 <= s' /\ scroll_x <= s' /\ target_x - s' <= inject_Z SCROLL_EDGE /\
  (0 <= scroll_x ->
   (inject_Z SCROLL_EDGE < target_x - scroll_x ->
    s' = target_x - inject_Z SCROLL_EDGE) /\
   (target_x - scroll_x <= inject_Z SCROLL_EDGE -> s' = scroll_x)).
Proof.
  cbv zeta. split; [apply update_nonneg|]. split; [apply update_monotone|].
  split.
  - unfold Camera.update; cbv zeta. repeat qsplit; lra.
  - intro H. split; intro H'.
    + apply update_follow; assumption.
    + apply update_hold; assumption.
Qed.

Lemma camera_update_spec_witness :
  Camera.update 100 0 = 100 - inject_Z SCROLL_EDGE.
Proof.
  destruct (camera_update_spec 100 0) as (_ & _ & _ & H).
  apply H; [discriminate | reflexivity].
Defined.

(** [Player.apply_input], horizontal part, for a living player within the
    speed limit.  With a left key down the speed drops by [PLAYER_ACCEL] but
    not below [-PLAYER_MAX_SPEED], also when a right key is down as well;
    with only a right key down it rises by [PLAYER_ACCEL] but not above
    [PLAYER_MAX_SPEED]; with no direction key down it moves towards zero by
    [PLAYER_DECEL] and stops at zero instead of changing sign. *)
Theorem apply_input_horizontal (keys : Keys) (s : Player.t) :
  Player.alive s = true ->
  speed_ok s ->
  let v := Player.vel_x s in
  let v' := Player.vel_x (fst (Player.apply_input keys s)) in
  (held_left keys = true ->
   (- PLAYER_MAX_SPEED <= v - PLAYER_ACCEL -> v' == v - PLAYER_ACCEL) /\
   (v - PLAYER_ACCEL <= - PLAYER_MAX_SPEED -> v' == - PLAYER_MAX_SPEED)) /\
  (held_left keys = false -> held_right keys = true ->
   (v + PLAYER_ACCEL <= PLAYER_MAX_SPEED -> v' == v + PLAYER_ACCEL) /\
   (PLAYER_MAX_SPEED <= v + PLAYER_ACCEL -> v' == PLAYER_MAX_SPEED)) /\
  (held_left keys = false -> held_right keys = false ->
   (PLAYER_DECEL <= v -> v' == v - PLAYER_DECEL) /\
   (0 <= v -> v <= PLAYER_DECEL -> v' == 0) /\
   (v <= 0 -> - PLAYER_DECEL <= v -> v' == 0) /\
   (v <= - PLAYER_DECEL -> v' == v + PLAYER_DECEL)).
Proof.
  unfold held_left, held_right, speed_ok, Player.apply_input, py_max, py_min,
    PLAYER_MAX_SPEED, PLAYER_ACCEL, PLAYER_DECEL.
  intros -> [H1 H2]. cbv zeta. simpl negb. cbv iota.
  destruct (K_LEFT keys || K_a keys), (K_RIGHT keys || K_d keys);
    (split; [|split]); intros; try discriminate;
    crunch; repeat split; intros; lra.
Qed.

Lemma apply_input_horizontal_witness :
  Player.vel_x (fst (Player.apply_input hold_right runner)) ==
  PLAYER_MAX_SPEED.
Proof.
  destruct (apply_input_horizontal hold_right runner) as (_ & H & _).
  - reflexivity.
  - split; discriminate.
  - apply H; [reflexivity | reflexivity | discriminate].
Defined.

(** The speed limit is an invariant of [Player.update]: whatever the keys
    and the platforms, tick after tick, a player created by [Player(x, y)]
    keeps [vel_x] within [-PLAYER_MAX_SPEED, PLAYER_MAX_SPEED]. *)
Theorem speed_always_clamped
  (platforms : list Platform) (ks : list Keys) (x0 y0 : Q) :
  speed_ok (run_updates platforms ks (Player.init x0 y0)).
Proof.
  apply run_updates_speed, init_speed.
Qed.





(** [Player.update] and the walk animation: the timer of a living player
    advances by one per tick, the frame stays 0 or 1, and it is 0 after every
    tick that ends in the air or slower than 0.2 px per tick. *)
Theorem update_animation
  (keys : Keys) (platforms : list Platform) (s : Player.t) :
  Player.alive s = true ->
  (Player.frame s = 0 \/ Player.frame s = 1)%Z ->
  let s' := fst (Player.update keys platforms s) in
  Player.anim_timer s' = (Player.anim_timer s + 1)%Z /\
  (Player.frame s' = 0 \/ Player.frame s' = 1)%Z /\
  (Player.grounded s' = false \/ Qabs (Player.vel_x s') <= 1 # 5 ->
   Player.frame s' = 0%Z).
Proof.
  intros Ha Hf s'. unfold s'. rewrite update_unfold. simpl fst.
  set (s1 := fst (Player.apply_input keys s)).
  assert (F1 : Player.frame s1 = Player.frame s /\
               Player.anim_timer s1 = Player.anim_timer s).
  { unfold s1, Player.apply_input. branches. }
  set (s2 := Player.physics platforms s1).
  assert (F2 : Player.frame s2 = Player.frame s1 /\
               Player.anim_timer s2 = Player.anim_timer s1 /\
               Player.alive s2 = true).
  { unfold s2, Player.physics. cbv zeta.
    assert (Fx : forall l q,
               let q' := fold_left Player.resolve_x l q in
               Player.frame q' = Player.frame q /\
               Player.anim_timer q' = Player.anim_timer q).
    { induction l as [|p l IH]; intro q; simpl; [auto|].
      destruct (IH (Player.resolve_x q p)) as [-> ->].
      unfold Player.resolve_x. branches. }
    assert (Fy : forall l q,
               let q' := fold_left Player.resolve_y l q in
               Player.frame q' = Player.frame q /\
               Player.anim_timer q' = Player.anim_timer q).
    { induction l as [|p l IH]; intro q; simpl; [auto|].
      destruct (IH (Player.resolve_y q p)) as [-> ->].
      unfold Player.resolve_y. branches. }
    destruct (Fy platforms
                (Player.move_y
                   (fold_left Player.resolve_x platforms (Player.move_x s1))))
      as [-> ->].
    simpl.
    destruct (Fx platforms (Player.move_x s1)) as [-> ->]. simpl.
    repeat split.
    destruct (physics_column platforms s1) as (_ & _ & _ & _ & A).
    cbv zeta in A. unfold Player.physics in A. cbv zeta in A. rewrite A.
    destruct (apply_input_box keys s) as (_ & _ & _ & _ & A1).
    cbv zeta in A1. fold s1 in A1. congruence. }
  destruct F1 as [F1 T1]. destruct F2 as (F2 & T2 & A2).
  unfold Player.animate. rewrite A2.
  cbn -[Z.add Z.modulo Z.eqb Z.lxor Qltb Qabs].
  rewrite T2, T1, F2, F1.
  destruct (Qltb (1 # 5) (Qabs (Player.vel_x s2))) eqn:Q;
    destruct (Player.grounded s2) eqn:G;
    cbn -[Z.add Z.modulo Z.eqb Z.lxor Qltb Qabs];
    try destruct ((Player.anim_timer s + 1) mod 8 =? 0)%Z;
    cbn -[Z.add Z.modulo Z.eqb Z.lxor Qltb Qabs];
    rewrite ?T2, ?T1, ?F2, ?F1, ?G;
    (split; [reflexivity|]);
    (split; [destruct Hf as [E | E]; rewrite ?E; simpl; auto|]);
    intros [H|H]; try discriminate; try reflexivity;
    apply Qltb_true in Q; exfalso; lra.
Qed.

Lemma update_animation_witness :
  Player.frame (fst (Player.update hold_right level_platforms spawn_grounded))
  = 0%Z.
Proof.
  destruct (update_animation hold_right level_platforms spawn_grounded)
    as (_ & _ & H).
  - reflexivity.
  - left; reflexivity.
  - apply H. left. reflexivity.
Defined.

(** ** Coins *)



(** ** The loop of [main] *)

Lemma level_coins_distinct : NoDup (map c_id level_coins).
Proof.
  simpl. repeat constructor; simpl; intuition discriminate.
Qed.

Lemma handle_event_distinct (w : World) (e : Event) :
  distinct_coins w -> distinct_coins (handle_event w e).
Proof.
  intro N. destruct e as [|[| |]|]; simpl; auto;
    destruct (GameState.state (game_state w)); auto;
    exact level_coins_distinct.
Qed.

(** Induction over the passes of the loop: a relation that every event and
    every tick respects holds between the world the loop starts from and the
    one it ends in, and the loop does end in one. *)
Lemma main_loop_rel (R : World -> World -> Prop) :
  (forall w, R w w) ->
  (forall a b c, R a b -> R b c -> R a c) ->
  (forall w e, distinct_coins w -> R w (handle_event w e)) ->
  (forall k w w', distinct_coins w -> tick k w = Some w' -> R w w') ->
  forall inputs w,
    distinct_coins w ->
    exists w', main_loop inputs w = Some w' /\ distinct_coins w' /\ R w w'.
Proof.
  intros Rrefl Rtrans Rev Rtick.
  assert (Evs : forall evs w, distinct_coins w ->
                distinct_coins (fold_left handle_event evs w) /\
                R w (fold_left handle_event evs w)).
  { induction evs as [|e evs IH]; intros w N; simpl; [auto|].
    destruct (IH (handle_event w e) (handle_event_distinct w e N)) as [N' H].
    split; [exact N'|]. eapply Rtrans; [apply Rev, N | exact H]. }
  induction inputs as [|[evs keys] rest IH]; intros w N; simpl.
  - exists w. auto.
  - destruct (running w); [|exists w; auto].
    unfold frame. destruct (Evs evs w N) as [N1 R1].
    destruct (tick_coins_ledger keys _ N1) as (w2 & T & N2 & _).
    rewrite T. destruct (IH w2 N2) as (w' & M & N' & R').
    exists w'. split; [exact M|]. split; [exact N'|].
    eapply Rtrans; [exact R1|]. eapply Rtrans; [|exact R'].
    apply (Rtick keys _ _ N1 T).
Qed.

Lemma initial_world_distinct : distinct_coins initial_world.
Proof. exact level_coins_distinct. Qed.

(** What a tick leaves of the world it starts from, in any state. *)
Lemma tick_keeps (keys : Keys) (w w' : World) :
  distinct_coins w ->
  tick keys w = Some w' ->
  platforms w' = platforms w /\ goal w' = goal w /\ running w' = running w /\
  (GameState.lives (game_state w) - 1 <= GameState.lives (game_state w')
   <= GameState.lives (game_state w))%Z /\
  (speed_ok (player w) -> speed_ok (player w')) /\
  (0 <= CAMERA w -> 0 <= CAMERA w').
Proof.
  intros N T. unfold tick in T.
  destruct (GameState.state (game_state w)) eqn:St;
    try (injection T as <-; intuition lia).
  destruct (playing_tick_shape keys w N)
    as (w1 & T1 & Pl & Cam & Ps & Gl & Run & _ & G & _).
  rewrite T in T1. injection T1 as <-. cbv zeta in *.
  destruct (before_coins_shape keys w)
    as (_ & _ & _ & _ & Bp & Bc & _ & _ & Bl & _). cbv zeta in *.
  set (b := before_coins keys w) in *. clearbody b.
  split; [exact Ps|]. split; [exact Gl|]. split; [exact Run|].
  split; [|split].
  - assert (L : GameState.lives (game_state w') =
                GameState.lives (game_state b)).
    { rewrite G. destruct (goal_hit (player b) (goal w)); reflexivity. }
    rewrite L, Bl. destruct (falls keys w); lia.
  - intro S. rewrite Pl, Bp.
    destruct (falls keys w && negb (last_life w));
      [apply init_speed | apply update_speed, S].
  - intros _. rewrite Cam, Bc. apply update_nonneg.
Qed.

Lemma handle_event_keeps (w : World) (e : Event) :
  let w' := handle_event w e in
  GameState.lives (game_state w') = GameState.lives (game_state w) /\
  (platforms w = level_platforms -> platforms w' = level_platforms) /\
  (goal w = level_goal -> goal w' = level_goal) /\
  (speed_ok (player w) -> speed_ok (player w')) /\
  (0 <= CAMERA w -> 0 <= CAMERA w').
Proof.
  destruct e as [|[| |]|]; simpl; auto 6;
    destruct (GameState.state (game_state w)); simpl; auto 6.
  all: repeat split; auto; intros; try apply init_speed; lra.
Qed.

Lemma initial_world_inv : reachable_inv initial_world.
Proof.
  split; [exact initial_world_distinct|].
  split; [apply init_speed|].
  repeat split. discriminate.
Qed.

(** [main] never stops on an exception of the coin loop ([list.remove] always
    finds the coin), whatever the events and the keys of each pass, and every
    world it goes through has distinct active coins, the platforms and goal
    of level 1-1, [scroll_x >= 0] and [vel_x] within the speed limit. *)
Theorem main_never_fails (inputs : list (list Event * Keys)) :
  exists w, main inputs = Some w /\ reachable_inv w.
Proof.
  destruct (main_loop_rel
              (fun w w' =>
                 (platforms w = level_platforms ->
                  platforms w' = level_platforms) /\
                 (goal w = level_goal -> goal w' = level_goal) /\
                 (speed_ok (player w) -> speed_ok (player w')) /\
                 (0 <= CAMERA w -> 0 <= CAMERA w')))
    with (inputs := inputs) (w := initial_world)
    as (w & M & N & P & G & S & C).
  - tauto.
  - tauto.
  - intros w e _. pose proof (handle_event_keeps w e) as H. simpl in H. tauto.
  - intros k w w' N T. destruct (tick_keeps k w w' N T) as (P & G & _ & _ & H).
    rewrite P, G. tauto.
  - exact initial_world_distinct.
  - destruct initial_world_inv as (_ & S0 & C0 & P0 & G0).
    exists w. split; [exact M|]. repeat split; auto; apply S; exact S0.
Qed.

(** Lives are never given back.  Along any run of the loop [lives] does not
    increase; in particular ENTER on the title or the game-over screen starts
    the level again (state PLAYING, score, coins, time and timer reset, level
    rebuilt, player at the spawn point, camera at 0) with [lives] exactly as
    they were, zero included. *)
Theorem lives_never_restored
  (inputs : list (list Event * Keys)) (w : World) :
  distinct_coins w ->
  (exists w',
     main_loop inputs w = Some w' /\
     (GameState.lives (game_state w') <= GameState.lives (game_state w))%Z) /\
  (GameState.state (game_state w) = MENU \/
   GameState.state (game_state w) = GAME_OVER ->
   let w' := handle_event w (KEYDOWN K_RETURN) in
   game_state w' =
     GameState.mk PLAYING 0 (GameState.lives (game_state w)) 0 400 0 /\
   (platforms w', coins w', goal w') = create_level_1_1 /\
   player w' = Player.init 32 100 /\ CAMERA w' = 0 /\
   running w' = running w /\ played w' = played w).
Proof.
  intro N. split.
  - destruct (main_loop_rel
                (fun a b => (GameState.lives (game_state b) <=
                             GameState.lives (game_state a))%Z))
      with (inputs := inputs) (w := w) as (w' & M & _ & L); auto.
    + intros; lia.
    + intros; lia.
    + intros a e _. pose proof (handle_event_keeps a e) as H. simpl in H.
      destruct H as [-> _]. lia.
    + intros k a b Na T. destruct (tick_keeps k a b Na T) as (_ & _ & _ & L & _).
      lia.
    + exists w'. auto.
  - intros [St|St]; simpl; rewrite St; repeat split.
Qed.

Lemma lives_never_restored_witness :
  exists w',
    main_loop (start_and_run 3) initial_world = Some w' /\
    (GameState.lives (game_state w') <= 3)%Z.
Proof.
  apply (lives_never_restored (start_and_run 3) initial_world).
  exact initial_world_distinct.
Defined.

Lemma set_running_twice (r r' : bool) (w : World) :
  set_running r (set_running r' w) = set_running r w.
Proof. reflexivity. Qed.

Lemma set_running_same (w : World) : set_running (running w) w = w.
Proof. destruct w; reflexivity. Qed.

(** VICTORY is final.  From a world in the VICTORY state no sequence of
    events and keys changes anything but [running]: ENTER does nothing, a
    tick does nothing, ESC and the window's QUIT clear [running], which ends
    the loop. *)
Theorem victory_is_final (inputs : list (list Event * Keys)) (w : World) :
  GameState.state (game_state w) = VICTORY ->
  (exists r, main_loop inputs w = Some (set_running r w)) /\
  handle_event w (KEYDOWN K_RETURN) = w /\
  handle_event w (KEYDOWN K_ESCAPE) = set_running false w /\
  handle_event w QUIT = set_running false w /\
  (forall keys, tick keys w = Some w) /\
  (forall rest, main_loop rest (set_running false w) =
                Some (set_running false w)).
Proof.
  intro St.
  assert (Ev : forall evs r, exists r',
             fold_left handle_event evs (set_running r w) = set_running r' w).
  { induction evs as [|e evs IH]; intro r; simpl; [eauto|].
    destruct e as [|[| |]|]; simpl; rewrite ?St; simpl; apply IH. }
  assert (Tk : forall keys r,
             tick keys (set_running r w) = Some (set_running r w)).
  { intros keys r. unfold tick. simpl. rewrite St. reflexivity. }
  split; [|split; [|split; [|split; [|split]]]].
  - assert (G : forall r, exists r',
                main_loop inputs (set_running r w) = Some (set_running r' w)).
    { induction inputs as [|[evs keys] rest IH]; intro r; simpl; [eauto|].
      destruct r; [|eauto]. unfold frame.
      destruct (Ev evs true) as [r' ->]. rewrite Tk. apply IH. }
    destruct (G (running w)) as [r' H]. rewrite set_running_same in H. eauto.
  - simpl. rewrite St. reflexivity.
  - simpl. rewrite St. reflexivity.
  - reflexivity.
  - intro keys. unfold tick. rewrite St. reflexivity.
  - intros [|[evs keys] rest]; reflexivity.
Qed.

Lemma victory_is_final_witness :
  handle_event
    (set_game_state (GameState.set_state VICTORY GameState.init) initial_world)
    (KEYDOWN K_RETURN) =
  set_game_state (GameState.set_state VICTORY GameState.init) initial_world.
Proof.
  apply (victory_is_final []
           (set_game_state (GameState.set_state VICTORY GameState.init)
              initial_world)).
  reflexivity.
Defined.

(** ** The countdown *)

Lemma plays_update (snd : Sound) (keys : Keys) (w : World) :
  snd <> SfxJump ->
  plays snd (Datatypes.snd (Player.update keys (platforms w) (player w))) = 0%nat.
Proof.
  intro H. destruct (update_sounds keys (platforms w) (player w)) as [-> | ->].
  - reflexivity.
  - destruct snd; try reflexivity. congruence.
Qed.

(** A PLAYING tick without fall or goal. *)
Lemma quiet_tick (keys : Keys) (w : World) :
  GameState.state (game_state w) = PLAYING ->
  distinct_coins w ->
  quiet keys w = true ->
  exists w',
    tick keys w = Some w' /\ distinct_coins w' /\
    GameState.timer (game_state w') = (GameState.timer (game_state w) + 1)%Z /\
    GameState.time (game_state w') =
      (if ((GameState.timer (game_state w) + 1) mod 60 =? 0)%Z
       then GameState.time (game_state w) - 1
       else GameState.time (game_state w))%Z /\
    GameState.state (game_state w') =
      (if expires w then GAME_OVER else PLAYING) /\
    GameState.lives (game_state w') = GameState.lives (game_state w) /\
    plays SfxGameover (played w') =
      (plays SfxGameover (played w) + if expires w then 1 else 0)%nat.
Proof.
  intros St N Q. unfold quiet in Q. apply andb_true_iff in Q.
  destruct Q as [Qf Qg]. apply negb_true_iff in Qf, Qg.
  destruct (tick_coins_ledger keys w N) as (w' & T & N' & _).
  exists w'. split; [exact T|]. split; [exact N'|].
  unfold tick in T. rewrite St in T.
  destruct (playing_tick_shape keys w N) as (w1 & T1 & _ & _ & _ & _ & _ & _ & G & P).
  rewrite T in T1. injection T1 as <-. cbv zeta in *.
  destruct (before_coins_shape keys w)
    as (_ & _ & _ & _ & Bp & _ & Btr & Bt & Bl & _ & _ & Bs & Bpl).
  cbv zeta in *. set (b := before_coins keys w) in *. clearbody b.
  rewrite Qf in *. simpl in Bp, Bl, Bs, Bpl.
  assert (Hg : goal_hit (player b) (goal w) = false)
    by (rewrite Bp; exact Qg).
  rewrite Hg in G, P. rewrite G. unfold award.
  cbn -[Z.add Z.sub Z.mul Z.modulo Z.eqb Z.leb plays].
  rewrite Btr, Bt, Bl, Bs, St, P, Bpl.
  repeat split.
  rewrite !plays_app, plays_repeat, (plays_update SfxGameover) by discriminate.
  destruct (Sound_eq_dec SfxCoin SfxGameover) as [E|_]; [discriminate E|].
  destruct (expires w); simpl; lia.
Qed.

Lemma run_ticks_app (l1 l2 : list Keys) (w : World) :
  run_ticks (l1 ++ l2) w =
  match run_ticks l1 w with
  | Some w1 => run_ticks l2 w1
  | None => None
  end.
Proof.
  revert w. induction l1 as [|k l1 IH]; intro w; simpl; [reflexivity|].
  destruct (tick k w); auto.
Qed.

Lemma quiet_run_app (l1 l2 : list Keys) (w : World) :
  quiet_run (l1 ++ l2) w = true ->
  quiet_run l1 w = true /\
  forall w1, run_ticks l1 w = Some w1 -> quiet_run l2 w1 = true.
Proof.
  revert w. induction l1 as [|k l1 IH]; intro w; simpl.
  - intro H. split; [reflexivity|]. intros w1 E. injection E as <-. exact H.
  - intro H. apply andb_true_iff in H. destruct H as [Q H].
    rewrite Q. simpl. destruct (tick k w) as [w2|]; [|discriminate].
    apply IH, H.
Qed.

(** The countdown while nothing else happens: as long as fewer than 24000
    ticks have gone by since the level started, the game is still PLAYING
    and [time] is 400 minus the seconds elapsed. *)
Lemma countdown_running (ks : list Keys) :
  forall w : World,
    GameState.state (game_state w) = PLAYING ->
    distinct_coins w ->
    quiet_run ks w = true ->
    (0 <= GameState.timer (game_state w))%Z ->
    GameState.time (game_state w) =
      (400 - GameState.timer (game_state w) / 60)%Z ->
    (GameState.timer (game_state w) + Z.of_nat (length ks) < 24000)%Z ->
    exists w',
      run_ticks ks w = Some w' /\
      GameState.state (game_state w') = PLAYING /\
      distinct_coins w' /\
      GameState.timer (game_state w') =
        (GameState.timer (game_state w) + Z.of_nat (length ks))%Z /\
      GameState.time (game_state w') =
        (400 - GameState.timer (game_state w') / 60)%Z /\
      GameState.lives (game_state w') = GameState.lives (game_state w) /\
      plays SfxGameover (played w') = plays SfxGameover (played w).
Proof.
  induction ks as [|k ks IH]; intros w St N Q T0 Tm Len.
  - exists w. simpl. rewrite Z.add_0_r. repeat split; auto.
  - simpl in Q. apply andb_true_iff in Q. destruct Q as [Qk Q].
    destruct (quiet_tick k w St N Qk) as (w1 & T & N1 & Tr & Ti & S1 & L1 & P1).
    simpl run_ticks. rewrite T in *.
    set (t := GameState.timer (game_state w)) in *.
    assert (Len' : (t + 1 + Z.of_nat (length ks) < 24000)%Z)
      by (simpl length in Len; lia).
    pose proof (Z.div_mod (t + 1) 60 ltac:(lia)) as D1.
    pose proof (Z.mod_pos_bound (t + 1) 60 ltac:(lia)) as B1.
    pose proof (Z.div_mod t 60 ltac:(lia)) as D0.
    pose proof (Z.mod_pos_bound t 60 ltac:(lia)) as B0.
    assert (X : expires w = false).
    { unfold expires. fold t. rewrite Tm. apply andb_false_iff.
      destruct ((t + 1) mod 60 =? 0)%Z eqn:M; [right|left; reflexivity].
      apply Z.eqb_eq in M. apply Z.leb_gt. lia. }
    rewrite X in S1, P1.
    assert (Tm1 : GameState.time (game_state w1) =
                  (400 - GameState.timer (game_state w1) / 60)%Z).
    { rewrite Ti, Tr, Tm.
      destruct ((t + 1) mod 60 =? 0)%Z eqn:M.
      - apply Z.eqb_eq in M. lia.
      - apply Z.eqb_neq in M. lia. }
    destruct (IH w1 S1 N1 Q ltac:(lia) Tm1 ltac:(rewrite Tr; exact Len'))
      as (w' & R & S' & N' & Tr' & Ti' & L' & P').
    exists w'. split; [exact R|]. split; [exact S'|]. split; [exact N'|].
    split; [rewrite Tr', Tr; simpl length; lia|].
    split; [exact Ti'|]. split; [congruence|]. rewrite P', P1. lia.
Qed.

(** The countdown.  Start a level ([time = 400], [timer = 0]) and let 24000
    ticks go by on which the player neither falls off the screen nor touches
    the goal.  After any smaller number of ticks the game is still PLAYING
    with [time > 0]; after the 24000th, [time = 0], the state is GAME_OVER
    and the game-over sound has been played once. *)
Theorem countdown_expires (ks : list Keys) (w : World) :
  GameState.state (game_state w) = PLAYING ->
  GameState.time (game_state w) = 400%Z ->
  GameState.timer (game_state w) = 0%Z ->
  distinct_coins w ->
  quiet_run ks w = true ->
  length ks = (60 * 400)%nat ->
  (forall n, (n < 60 * 400)%nat ->
     exists w',
       run_ticks (firstn n ks) w = Some w' /\
       GameState.state (game_state w') = PLAYING /\
       (0 < GameState.time (game_state w'))%Z) /\
  (exists w',
     run_ticks ks w = Some w' /\
     GameState.state (game_state w') = GAME_OVER /\
     GameState.time (game_state w') = 0%Z /\
     GameState.timer (game_state w') = 24000%Z /\
     plays SfxGameover (played w') = S (plays SfxGameover (played w))).
Proof.
  intros St Ti Tr N Q Len.
  assert (Pre : forall n, (n < 60 * 400)%nat ->
            exists w',
              run_ticks (firstn n ks) w = Some w' /\
              GameState.state (game_state w') = PLAYING /\
              distinct_coins w' /\
              GameState.timer (game_state w') = Z.of_nat n /\
              GameState.time (game_state w') = (400 - Z.of_nat n / 60)%Z /\
              plays SfxGameover (played w') = plays SfxGameover (played w) /\
              quiet_run (skipn n ks) w' = true).
  { intros n Hn.
    rewrite <- (firstn_skipn n ks) in Q. apply quiet_run_app in Q.
    destruct Q as [Q1 Q2].
    assert (L : length (firstn n ks) = n) by (rewrite length_firstn; lia).
    destruct (countdown_running (firstn n ks) w St N Q1)
      as (w' & R & S' & N' & Tr' & Ti' & _ & P');
      [lia | rewrite Ti, Tr; reflexivity | lia |].
    exists w'. rewrite Tr, L in Tr'. rewrite Tr' in Ti'.
    repeat split; auto. }
  split.
  - intros n Hn. destruct (Pre n Hn) as (w' & R & S' & _ & _ & Ti' & _).
    exists w'. split; [exact R|]. split; [exact S'|].
    rewrite Ti'.
    pose proof (Z.div_mod (Z.of_nat n) 60 ltac:(lia)).
    pose proof (Z.mod_pos_bound (Z.of_nat n) 60 ltac:(lia)). lia.
  - destruct (Pre (60 * 400 - 1)%nat ltac:(lia))
      as (w1 & R & S1 & N1 & Tr1 & Ti1 & P1 & Q1).
    destruct (skipn (60 * 400 - 1) ks) as [|k [|k' tl]] eqn:Sk.
    + apply (f_equal (@length Keys)) in Sk. rewrite length_skipn in Sk.
      simpl length in Sk. lia.
    + simpl in Q1. rewrite andb_true_iff in Q1. destruct Q1 as [Qk _].
      destruct (quiet_tick k w1 S1 N1 Qk)
        as (w' & T & _ & Tr' & Ti' & S' & _ & P').
      assert (Z1 : Z.of_nat (60 * 400 - 1) = 23999%Z) by lia.
      rewrite Z1 in *.
      assert (X : expires w1 = true)
        by (unfold expires; rewrite Tr1, Ti1; reflexivity).
      rewrite X in S', P'. rewrite Tr1, Ti1 in Ti'. rewrite Tr1 in Tr'.
      exists w'.
      rewrite <- (firstn_skipn (60 * 400 - 1) ks), Sk, run_ticks_app, R.
      simpl run_ticks. rewrite T.
      split; [reflexivity|]. split; [exact S'|]. split; [exact Ti'|].
      split; [exact Tr'|]. rewrite P', P1. lia.
    + apply (f_equal (@length Keys)) in Sk. rewrite length_skipn in Sk.
      simpl length in Sk. lia.
Qed.

Lemma countdown_expires_witness :
  exists w',
    run_ticks (repeat no_keys (60 * 400)) flat_world = Some w' /\
    GameState.state (game_state w') = GAME_OVER /\
    GameState.time (game_state w') = 0%Z /\
    GameState.timer (game_state w') = 24000%Z /\
    plays SfxGameover (played w') = S (plays SfxGameover (played flat_world)).
Proof.
  apply (countdown_expires (repeat no_keys (60 * 400)) flat_world).
  - reflexivity.
  - reflexivity.
  - reflexivity.
  - constructor.
  - vm_compute. reflexivity.
  - apply repeat_length.
Defined.


(** ** Falling off the screen *)

Lemma fallen_misses_goal (p : Player.t) :
  Qltb (inject_Z GB_H) (Player.y p) = true -> goal_hit p level_goal = false.
Proof.
  intro H. apply Qltb_true in H. unfold goal_hit.
  assert (E : Qltb (Player.y p) (g_y level_goal + g_height level_goal) = false).
  { apply Qltb_false. change (inject_Z GB_H) with 144 in H.
    change (g_y level_goal + g_height level_goal) with (96 + 32). lra. }
  rewrite E, andb_false_r. reflexivity.
Qed.

(** The fall check of a PLAYING tick in level 1-1.  When the updated player
    is below the screen a life is taken.  If one is left, the player is
    replaced by a new one at (32, 100), the camera is back at 0 and the
    damage sound is played once.  If none is left, the state becomes
    GAME_OVER, the player is not replaced, the game-over sound is played and
    the damage sound is not. *)
Theorem fall_costs_a_life (keys : Keys) (w : World) :
  GameState.state (game_state w) = PLAYING ->
  distinct_coins w ->
  goal w = level_goal ->
  falls keys w = true ->
  exists w',
    tick keys w = Some w' /\
    GameState.lives (game_state w') =
      (GameState.lives (game_state w) - 1)%Z /\
    ((0 < GameState.lives (game_state w) - 1)%Z ->
     player w' = Player.init 32 100 /\ CAMERA w' = 0 /\
     plays SfxDamage (played w') = S (plays SfxDamage (played w)) /\
     GameState.state (game_state w') =
       (if expires w then GAME_OVER else PLAYING)) /\
    ((GameState.lives (game_state w) - 1 <= 0)%Z ->
     GameState.state (game_state w') = GAME_OVER /\
     player w' = updated_player keys w /\
     plays SfxDamage (played w') = plays SfxDamage (played w) /\
     plays SfxGameover (played w') =
       (plays SfxGameover (played w) + 1 + if expires w then 1 else 0)%nat).
Proof.
  intros St N Gl F.
  destruct (playing_tick_shape keys w N)
    as (w' & T & Pl & Cam & _ & _ & _ & _ & G & P).
  exists w'. unfold tick. rewrite St. split; [exact T|]. cbv zeta in *.
  destruct (before_coins_shape keys w)
    as (_ & _ & _ & _ & Bp & Bc & _ & _ & Bl & _ & _ & Bs & Bpl).
  cbv zeta in *. set (b := before_coins keys w) in *. clearbody b.
  rewrite F in *. simpl andb in *. cbv iota in Bl, Bpl.
  assert (Hg : goal_hit (player b) (goal w) = false).
  { rewrite Bp, Gl. destruct (last_life w); simpl negb; cbv iota.
    - apply fallen_misses_goal. exact F.
    - reflexivity. }
  rewrite Hg in G, P. rewrite app_nil_r in P.
  assert (L : GameState.lives (game_state w') =
              (GameState.lives (game_state w) - 1)%Z)
    by (rewrite G; unfold award; simpl; exact Bl).
  assert (S' : GameState.state (game_state w') =
               GameState.state (game_state b))
    by (rewrite G; reflexivity).
  split; [exact L|].
  rewrite Pl, Cam, S', Bs, Bc, Bp, P, Bpl, St.
  rewrite !plays_app, !plays_repeat, !(plays_update _ keys w) by discriminate.
  unfold last_life.
  split; intro H.
  - apply Z.leb_gt in H. rewrite H. simpl negb. cbv iota.
    split; [reflexivity|]. split; [reflexivity|].
    split; [|reflexivity].
    destruct (expires w); simpl; lia.
  - apply Z.leb_le in H. rewrite H. simpl negb. cbv iota.
    split; [reflexivity|]. split; [reflexivity|].
    destruct (expires w); simpl; split; lia.
Qed.

Lemma fall_costs_a_life_witness :
  exists w',
    tick no_keys pit_world = Some w' /\
    GameState.lives (game_state w') = 2%Z /\
    player w' = Player.init 32 100 /\ CAMERA w' = 0.
Proof.
  destruct (fall_costs_a_life no_keys pit_world)
    as (w' & T & L & H & _).
  - reflexivity.
  - exact level_coins_distinct.
  - reflexivity.
  - reflexivity.
  - exists w'. split; [exact T|]. split; [exact L|].
    destruct H as (P & C & _); [reflexivity | auto].
Defined.

(** ** Collecting coins *)

Lemma ids_injective (l : list Coin) (a b : Coin) :
  NoDup (map c_id l) -> In a l -> In b l -> c_id a = c_id b -> a = b.
Proof.
  induction l as [|c l IH]; simpl; intros N Ha Hb E; [tauto|].
  inversion N as [|? ? Hn N']; subst.
  destruct Ha as [<-|Ha], Hb as [<-|Hb]; auto.
  - exfalso. apply Hn. rewrite E. apply in_map. exact Hb.
  - exfalso. apply Hn. rewrite <- E. apply in_map. exact Ha.
Qed.

(** The coin loop of a PLAYING tick.  The coins left in the active list are
    those of the old list that the player does not overlap, in the same
    order, each with its phase advanced; every coin the player overlaps is
    gone; [coins] grows by one and [score] by 200 for each of them, and the
    coin sound is played once for each. *)
Theorem coins_collected_on_tick (keys : Keys) (w : World) :
  GameState.state (game_state w) = PLAYING ->
  distinct_coins w ->
  exists w',
    tick keys w = Some w' /\
    let p := player w' in
    let k := touched p (coins w) in
    coins w' = left_over p (coins w) /\
    (forall c, In c (coins w) ->
               (In (c_id c) (coin_ids w') <-> coin_hit p c = false)) /\
    GameState.coins (game_state w') =
      (GameState.coins (game_state w) + k)%Z /\
    GameState.score (game_state w') =
      (GameState.score (game_state w) + 200 * k)%Z /\
    plays SfxCoin (played w') =
      (plays SfxCoin (played w) + Z.to_nat k)%nat.
Proof.
  intros St N.
  destruct (playing_tick_shape keys w N)
    as (w' & T & Pl & _ & _ & _ & _ & Cs & G & P).
  exists w'. unfold tick. rewrite St. split; [exact T|]. cbv zeta in *.
  destruct (before_coins_shape keys w)
    as (_ & _ & _ & _ & _ & _ & _ & _ & _ & Bsc & Bco & _ & Bpl).
  cbv zeta in *. set (b := before_coins keys w) in *. clearbody b.
  rewrite Pl. split; [exact Cs|]. split; [|split; [|split]].
  - intros c Hc. unfold coin_ids. rewrite Cs, left_over_ids. split.
    + intro H. apply in_map_iff in H. destruct H as (c2 & E & H).
      apply filter_In in H. destruct H as [H2 Hn].
      rewrite (ids_injective (coins w) c c2 N Hc H2 (eq_sym E)).
      apply negb_true_iff. exact Hn.
    + intro H. apply in_map. apply filter_In. rewrite H. auto.
  - rewrite G. destruct (goal_hit (player b) (goal w));
      cbn -[Z.add Z.mul touched]; rewrite Bco; reflexivity.
  - rewrite G. destruct (goal_hit (player b) (goal w));
      cbn -[Z.add Z.mul touched]; rewrite Bsc; reflexivity.
  - rewrite P, Bpl. unfold touched. rewrite Nat2Z.id.
    rewrite !plays_app, plays_repeat, (plays_update _ keys w) by discriminate.
    destruct (Sound_eq_dec SfxCoin SfxCoin) as [_|E]; [|congruence].
    assert (Z1 : plays SfxCoin
                   (if goal_hit (player b) (goal w) then [SfxVictory] else [])
                 = 0%nat)
      by (destruct (goal_hit (player b) (goal w)); reflexivity).
    assert (Z2 : plays SfxCoin (if expires w then [SfxGameover] else [])
                 = 0%nat)
      by (destruct (expires w); reflexivity).
    assert (Z3 : plays SfxCoin
                   (if falls keys w
                    then if last_life w then [SfxGameover] else [SfxDamage]
                    else []) = 0%nat)
      by (destruct (falls keys w), (last_life w); reflexivity).
    rewrite Z1, Z2, Z3. lia.
Qed.

Lemma coins_collected_on_tick_witness :
  exists w',
    tick no_keys coin_world = Some w' /\
    GameState.coins (game_state w') = 1%Z /\
    GameState.score (game_state w') = 200%Z /\
    length (coins w') = 5%nat.
Proof.
  destruct (coins_collected_on_tick no_keys coin_world eq_refl
              level_coins_distinct) as (w' & T & Cs & _ & C & S & _).
  exists w'. split; [exact T|].
  vm_compute in T. injection T as <-.
  repeat split.
Defined.

(** Over any number of ticks no coin comes back into the active list, and
    every coin that left it was counted exactly once: [coins] plus the
    number of active coins, and [score] plus 200 times that number, do not
    change.  The loop never fails to find the coin it removes. *)
Theorem coins_counted_once (ks : list Keys) (w : World) :
  distinct_coins w ->
  exists w',
    run_ticks ks w = Some w' /\
    distinct_coins w' /\
    incl (coin_ids w') (coin_ids w) /\
    (GameState.coins (game_state w') + Z.of_nat (length (coins w')) =
     GameState.coins (game_state w) + Z.of_nat (length (coins w)))%Z /\
    (GameState.score (game_state w') + 200 * Z.of_nat (length (coins w')) =
     GameState.score (game_state w) + 200 * Z.of_nat (length (coins w)))%Z /\
    (GameState.coins (game_state w) <= GameState.coins (game_state w')
     <= GameState.coins (game_state w) + Z.of_nat (length (coins w)))%Z.
Proof.
  intro N.
  destruct (run_ticks_coins_ledger ks w N) as (w' & R & N' & I & C & S).
  exists w'. repeat split; auto; try lia.
  assert (L : (length (coin_ids w') <= length (coin_ids w))%nat)
    by (apply NoDup_incl_length; assumption).
  unfold coin_ids in L. rewrite !length_map in L. lia.
Qed.

Lemma coins_counted_once_witness :
  exists w',
    run_ticks [no_keys; no_keys] coin_world = Some w' /\
    (GameState.coins (game_state w') + Z.of_nat (length (coins w')) = 6)%Z.
Proof.
  destruct (coins_counted_once [no_keys; no_keys] coin_world
              level_coins_distinct) as (w' & R & _ & _ & C & _).
  exists w'. split; [exact R | exact C].
Defined.

(** ** Reaching the goal, leaving for the menu *)

(** The goal check comes last in a PLAYING tick and wins: when the player's
    box overlaps the goal at the end of the tick the state is VICTORY and the
    victory sound is the last one played, whatever else the tick did (the
    clock running out included); when it does not, the state is not VICTORY
    and no victory sound is played. *)
Theorem goal_check_wins (keys : Keys) (w : World) :
  GameState.state (game_state w) = PLAYING ->
  distinct_coins w ->
  exists w',
    tick keys w = Some w' /\
    (goal_hit (player w') (goal w) = true ->
     GameState.state (game_state w') = VICTORY /\
     exists log, played w' = log ++ [SfxVictory]) /\
    (goal_hit (player w') (goal w) = false ->
     GameState.state (game_state w') <> VICTORY /\
     plays SfxVictory (played w') = plays SfxVictory (played w)).
Proof.
  intros St N.
  destruct (playing_tick_shape keys w N)
    as (w' & T & Pl & _ & _ & _ & _ & _ & G & P).
  exists w'. unfold tick. rewrite St. split; [exact T|]. cbv zeta in *.
  destruct (before_coins_shape keys w)
    as (_ & _ & _ & _ & _ & _ & _ & _ & _ & _ & _ & Bs & Bpl).
  cbv zeta in *. set (b := before_coins keys w) in *. clearbody b.
  rewrite Pl. split; intro H; rewrite H in G, P.
  - split; [rewrite G; reflexivity|].
    rewrite app_assoc in P. eauto.
  - split.
    + rewrite G. cbn. rewrite Bs, St.
      destruct (falls keys w && last_life w || expires w); discriminate.
    + rewrite P, Bpl.
      rewrite !plays_app, plays_repeat, (plays_update _ keys w)
        by discriminate.
      destruct (Sound_eq_dec SfxCoin SfxVictory) as [E|_]; [discriminate E|].
      destruct (expires w), (falls keys w), (last_life w); simpl; lia.
Qed.

Lemma goal_check_wins_witness :
  exists w',
    tick no_keys goal_world = Some w' /\
    GameState.state (game_state w') = VICTORY.
Proof.
  destruct (goal_check_wins no_keys goal_world eq_refl level_coins_distinct)
    as (w' & T & H & _).
  exists w'. split; [exact T|]. apply H.
  vm_compute in T. injection T as <-. reflexivity.
Defined.

(** ESC while PLAYING.  The pass of the loop on which ESC arrives ends in the
    MENU state with every counter, the level, the player and the camera as
    they were, and no tick is run on it; a second ESC on the same pass clears
    [running]. *)
Theorem escape_pauses (keys : Keys) (w : World) :
  GameState.state (game_state w) = PLAYING ->
  let menu := set_game_state (GameState.set_state MENU (game_state w)) w in
  frame [KEYDOWN K_ESCAPE] keys w = Some menu /\
  frame [KEYDOWN K_ESCAPE; KEYDOWN K_ESCAPE] keys w =
    Some (set_running false menu) /\
  GameState.score (game_state menu) = GameState.score (game_state w) /\
  GameState.lives (game_state menu) = GameState.lives (game_state w) /\
  GameState.coins (game_state menu) = GameState.coins (game_state w) /\
  GameState.time (game_state menu) = GameState.time (game_state w) /\
  GameState.timer (game_state menu) = GameState.timer (game_state w).
Proof.
  intro St. unfold frame, tick. simpl. rewrite St. simpl.
  repeat split.
Qed.

Lemma escape_pauses_witness :
  frame [KEYDOWN K_ESCAPE] no_keys flat_world =
  Some (set_game_state
          (GameState.set_state MENU (game_state flat_world)) flat_world).
Proof.
  apply (escape_pauses no_keys flat_world). reflexivity.
Defined.


(** ** Drawing *)

Lemma draw_pixel_at (s : Surface) (x y : Z) (c : Color) (px py : Z) :
  draw_pixel s x y c px py =
  if on_screen x y && ((px =? x) && (py =? y))%Z then c else s px py.
Proof.
  unfold draw_pixel, on_screen, set_at.
  destruct ((0 <=? x) && (x <? GB_W) && ((0 <=? y) && (y <? GB_H)))%Z;
    reflexivity.
Qed.

Lemma sprite_at_value (sprite_array : list (list Z)) (row : list Z)
  (y i : nat) :
  nth_error sprite_array y = Some row ->
  (i < length row)%nat ->
  sprite_at sprite_array y i = Some (nth i (nth y sprite_array []) 0%Z).
Proof.
  intros R L. unfold sprite_at. rewrite R.
  rewrite (nth_error_nth _ _ [] R).
  apply nth_error_nth'. exact L.
Qed.

(** What one cell of a sprite does to the surface. *)
Lemma paint_cell_some (s : Surface) (x y val : Z) :
  (if (val =? 1)%Z then Some (draw_pixel s x y COL_DARK1)
   else if (val =? 2)%Z then Some (draw_pixel s x y COL_DARK2)
        else Some s) = Some (paint_cell s x y val).
Proof.
  unfold paint_cell. destruct (val =? 1)%Z; [|destruct (val =? 2)%Z];
    reflexivity.
Qed.

Lemma paint_cell_at (s : Surface) (x y val px py : Z) :
  paint_cell s x y val px py =
  if on_screen px py && ((px =? x) && (py =? y))%Z
  then paint val (s px py) else s px py.
Proof.
  unfold paint_cell, paint.
  destruct (val =? 1)%Z; [|destruct (val =? 2)%Z]; rewrite ?draw_pixel_at.
  - destruct (Z.eqb_spec px x), (Z.eqb_spec py y); subst;
      rewrite ?andb_false_r; reflexivity.
  - destruct (Z.eqb_spec px x), (Z.eqb_spec py y); subst;
      rewrite ?andb_false_r; reflexivity.
  - destruct (on_screen px py && ((px =? x) && (py =? y))%Z); reflexivity.
Qed.

(** Case analysis on the integer comparisons of the goal. *)
Ltac zcases :=
  repeat match goal with
         | |- context [(?a <=? ?b)%Z] => destruct (Z.leb_spec a b)
         | |- context [(?a <? ?b)%Z] => destruct (Z.ltb_spec a b)
         | |- context [(?a =? ?b)%Z] => destruct (Z.eqb_spec a b)
         end;
  simpl.

(** One row of [draw_sprite], columns [a .. a + n - 1]. *)
Lemma draw_sprite_row_spec (sprite_array : list (list Z)) (width : Z)
  (x_off y_off : Z) (flip : bool) (y : nat) (row : list Z) :
  nth_error sprite_array y = Some row ->
  (Z.to_nat width <= length row)%nat ->
  forall (n a : nat) (s : Surface),
    (a + n <= Z.to_nat width)%nat ->
    exists s',
      draw_sprite_row sprite_array width x_off y_off flip y (seq a n) s
      = Some s' /\
      forall px py,
        s' px py =
        if on_screen px py && (py =? y_off + Z.of_nat y)%Z &&
           ((Z.of_nat a <=? px - x_off) && (px - x_off <? Z.of_nat (a + n)))%Z
        then paint (sprite_value sprite_array width flip (px - x_off)
                      (Z.of_nat y)) (s px py)
        else s px py.
Proof.
  intros R L. induction n as [|n IH]; intros a s B.
  - exists s. split; [reflexivity|]. intros px py.
    destruct (on_screen px py); [|reflexivity].
    zcases; try reflexivity; lia.
  - simpl seq. simpl draw_sprite_row. unfold draw_sprite_cell.
    set (i := if flip then Z.to_nat (width - 1 - Z.of_nat a) else a).
    assert (Li : (i < length row)%nat) by (unfold i; destruct flip; lia).
    rewrite (sprite_at_value sprite_array row y i R Li).
    set (val := nth i (nth y sprite_array []) 0%Z).
    assert (V : forall px,
               (px - x_off = Z.of_nat a)%Z ->
               sprite_value sprite_array width flip (px - x_off) (Z.of_nat y)
               = val).
    { intros px E. unfold sprite_value, val, i. rewrite E, Nat2Z.id.
      destruct flip; rewrite ?Nat2Z.id; reflexivity. }
    rewrite (paint_cell_some s (x_off + Z.of_nat a) (y_off + Z.of_nat y) val).
    destruct (IH (S a) (paint_cell s (x_off + Z.of_nat a)
                          (y_off + Z.of_nat y) val) ltac:(lia))
      as (s' & D & H).
    exists s'. split; [exact D|]. intros px py.
    rewrite H, paint_cell_at.
    destruct (on_screen px py); [|reflexivity]. simpl andb.
    zcases; try reflexivity; try lia.
    all: rewrite (V px) by lia; reflexivity.
Qed.

(** The rows [b .. b + m - 1] of [draw_sprite]. *)
Lemma draw_sprite_rows_spec (sprite_array : list (list Z))
  (width height : Z) (x_off y_off : Z) (flip : bool) :
  covers sprite_array width height ->
  forall (m b : nat) (s : Surface),
    (b + m <= Z.to_nat height)%nat ->
    exists s',
      draw_sprite_rows sprite_array width x_off y_off flip (seq b m) s
      = Some s' /\
      forall px py,
        s' px py =
        if on_screen px py &&
           ((0 <=? px - x_off) && (px - x_off <? width))%Z &&
           ((Z.of_nat b <=? py - y_off) &&
            (py - y_off <? Z.of_nat (b + m)))%Z
        then paint (sprite_value sprite_array width flip (px - x_off)
                      (py - y_off)) (s px py)
        else s px py.
Proof.
  intro C. induction m as [|m IH]; intros b s B.
  - exists s. split; [reflexivity|]. intros px py.
    destruct (on_screen px py); [|reflexivity].
    zcases; try reflexivity; lia.
  - simpl seq. simpl draw_sprite_rows.
    destruct (C b ltac:(lia)) as (row & R & L).
    destruct (draw_sprite_row_spec sprite_array width x_off y_off flip b row
                R L (Z.to_nat width) 0%nat s ltac:(lia)) as (s1 & D1 & H1).
    rewrite D1.
    destruct (IH (S b) s1 ltac:(lia)) as (s' & D & H).
    exists s'. split; [exact D|]. intros px py. rewrite H, H1.
    destruct (on_screen px py); [|reflexivity]. simpl andb.
    zcases; try reflexivity; try lia.
    replace (py - y_off)%Z with (Z.of_nat b) by lia. reflexivity.
Qed.

(** [draw_sprite] on an array that has the rows and columns it is asked for:
    it does not fail, it leaves alone every pixel outside the
    [width] x [height] box at ([x_off], [y_off]) and every pixel off the
    screen, and inside the box it paints the pixels whose value is 1 or 2,
    reading the rows right to left when [flip] is set. *)
Theorem draw_sprite_spec (surface : Surface) (sprite_array : list (list Z))
  (width height x_off y_off : Z) (flip : bool) :
  covers sprite_array width height ->
  exists surface',
    draw_sprite surface sprite_array width height x_off y_off flip
    = Some surface' /\
    forall px py,
      surface' px py =
      if on_screen px py &&
         ((0 <=? px - x_off) && (px - x_off <? width))%Z &&
         ((0 <=? py - y_off) && (py - y_off <? height))%Z
      then paint (sprite_value sprite_array width flip (px - x_off)
                    (py - y_off)) (surface px py)
      else surface px py.
Proof.
  intro C. unfold draw_sprite.
  destruct (draw_sprite_rows_spec sprite_array width height x_off y_off flip
              C (Z.to_nat height) 0%nat surface ltac:(lia)) as (s' & D & H).
  exists s'. split; [exact D|]. intros px py. rewrite H.
  destruct (on_screen px py); [|reflexivity]. simpl andb.
  zcases; try reflexivity; lia.
Qed.

(** [draw_sprite] asked for more rows than the array has is an
    [IndexError]. *)
Theorem draw_sprite_short (surface : Surface) (sprite_array : list (list Z))
  (width height x_off y_off : Z) (flip : bool) :
  (0 < width)%Z ->
  (Z.of_nat (length sprite_array) < height)%Z ->
  draw_sprite surface sprite_array width height x_off y_off flip = None.
Proof.
  intros W H. unfold draw_sprite.
  assert (Bad : forall s,
             draw_sprite_row sprite_array width x_off y_off flip
               (length sprite_array) (seq 0 (Z.to_nat width)) s = None).
  { intro s. destruct (Z.to_nat width) as [|w] eqn:E; [lia|].
    simpl. unfold draw_sprite_cell, sprite_at.
    rewrite (proj2 (nth_error_None sprite_array (length sprite_array)))
      by lia. reflexivity. }
  assert (G : forall ys s,
             In (length sprite_array) ys ->
             draw_sprite_rows sprite_array width x_off y_off flip ys s
             = None).
  { induction ys as [|y ys IH]; intros s Hin; [destruct Hin|].
    simpl.
    destruct (draw_sprite_row sprite_array width x_off y_off flip y
                (seq 0 (Z.to_nat width)) s) as [s1|] eqn:E; [|reflexivity].
    destruct Hin as [->|Hin]; [rewrite Bad in E; discriminate|].
    apply IH, Hin. }
  apply G. apply in_seq. lia.
Qed.

(** Drawing flipped is drawing the array with every row reversed, when the
    rows are exactly [width] long. *)
Theorem draw_sprite_mirror (surface : Surface) (sprite_array : list (list Z))
  (width height x_off y_off : Z) :
  (forall y, (y < Z.to_nat height)%nat ->
     exists row, nth_error sprite_array y = Some row /\
                 length row = Z.to_nat width) ->
  exists s1 s2,
    draw_sprite surface sprite_array width height x_off y_off true
    = Some s1 /\
    draw_sprite surface (map (@rev Z) sprite_array) width height x_off y_off
      false = Some s2 /\
    forall px py, s1 px py = s2 px py.
Proof.
  intro C.
  assert (C1 : covers sprite_array width height).
  { intros y Hy. destruct (C y Hy) as (row & R & L).
    exists row. split; [exact R | lia]. }
  assert (C2 : covers (map (@rev Z) sprite_array) width height).
  { intros y Hy. destruct (C y Hy) as (row & R & L).
    exists (rev row). split; [|rewrite length_rev; lia].
    rewrite nth_error_map, R. reflexivity. }
  destruct (draw_sprite_spec surface sprite_array width height x_off y_off
              true C1) as (s1 & D1 & H1).
  destruct (draw_sprite_spec surface (map (@rev Z) sprite_array) width height
              x_off y_off false C2) as (s2 & D2 & H2).
  exists s1, s2. split; [exact D1|]. split; [exact D2|].
  intros px py. rewrite H1, H2.
  destruct (on_screen px py); [|reflexivity]. simpl andb.
  zcases; try reflexivity. f_equal.
  unfold sprite_value.
  destruct (C (Z.to_nat (py - y_off)) ltac:(lia)) as (row & R & L).
  change (@nil Z) with (rev (@nil Z)) at 2. rewrite map_nth.
  rewrite (nth_error_nth _ _ [] R).
  rewrite rev_nth by lia. f_equal. lia.
Qed.

Lemma draw_sprite_mirror_witness :
  exists s1 s2,
    draw_sprite (fill COL_LIGHT2) Player_DEAD 8 16 0 0 true = Some s1 /\
    draw_sprite (fill COL_LIGHT2) (map (@rev Z) Player_DEAD) 8 16 0 0 false
    = Some s2 /\
    forall px py, s1 px py = s2 px py.
Proof.
  apply (draw_sprite_mirror (fill COL_LIGHT2) Player_DEAD 8 16 0 0).
  intros y Hy. change (Z.to_nat 16) with 16%nat in Hy.
  do 16 (destruct y as [|y]; [eexists; split; reflexivity|]). lia.
Defined.

Lemma draw_sprite_spec_witness :
  exists surface',
    draw_sprite (fill COL_LIGHT2) Coin_SPRITE 8 8 10 10 false
    = Some surface' /\
    surface' 12%Z 10%Z = COL_DARK1.
Proof.
  destruct (draw_sprite_spec (fill COL_LIGHT2) Coin_SPRITE 8 8 10 10 false)
    as (s' & D & H).
  - intros y Hy. change (Z.to_nat 8) with 8%nat in Hy.
    do 8 (destruct y as [|y]; [eexists; split; [reflexivity|simpl; lia]|]).
    lia.
  - exists s'. split; [exact D|]. rewrite H. reflexivity.
Defined.

Lemma draw_sprite_short_witness :
  draw_sprite (fill COL_LIGHT2) Coin_SPRITE 8 16 0 0 false = None.
Proof.
  apply draw_sprite_short; reflexivity.
Defined.

Lemma covers_16x8 (sprite : list (list Z)) :
  sprite = Player_STAND \/ sprite = Player_WALK1 \/
  sprite = Player_JUMP \/ sprite = Player_DEAD ->
  covers sprite 8 16.
Proof.
  intros H y Hy. change (Z.to_nat 16) with 16%nat in Hy.
  destruct H as [-> | [-> | [-> | ->]]];
    do 16 (destruct y as [|y]; [eexists; split; [reflexivity|simpl; lia]|]);
    lia.
Qed.

Lemma blank_row (i : nat) : nth i [0; 0; 0; 0; 0; 0; 0; 0]%Z 0%Z = 0%Z.
Proof. do 8 (destruct i as [|i]; [reflexivity|]). destruct i; reflexivity. Qed.

Lemma blank_lower_half (sprite : list (list Z)) (flip : bool) (dx dy : Z) :
  sprite = Player_STAND \/ sprite = Player_WALK1 \/
  sprite = Player_JUMP \/ sprite = Player_DEAD ->
  (8 <= dy < 16)%Z ->
  sprite_value sprite 8 flip dx dy = 0%Z.
Proof.
  intros H D. unfold sprite_value.
  assert (E : (dy = 8 \/ dy = 9 \/ dy = 10 \/ dy = 11 \/ dy = 12 \/
               dy = 13 \/ dy = 14 \/ dy = 15)%Z) by lia.
  destruct H as [-> | [-> | [-> | ->]]];
    repeat (destruct E as [-> | E]; [apply blank_row|]);
    subst; apply blank_row.
Qed.

(** [Player.draw] never fails, whatever the player and the camera.  It only
    paints, in one of the two dark tones, pixels of the screen within the
    8 x 8 square whose corner is at (int(x - scroll_x), int(y)): the upper
    half of the 8 x 16 box the collisions use. *)
Theorem player_draw_spec (s : Player.t) (surface : Surface) (scroll_x : Q) :
  let x_pos := py_int (Player.x s - scroll_x) in
  let y_pos := py_int (Player.y s) in
  exists surface',
    Player_draw s surface scroll_x = Some surface' /\
    drawn_within
      (fun px py => (x_pos <= px < x_pos + 8 /\ y_pos <= py < y_pos + 8)%Z)
      [COL_DARK1; COL_DARK2] surface surface'.
Proof.
  intros x_pos y_pos. unfold Player_draw. fold x_pos y_pos.
  set (sprite := if negb (Player.alive s) then Player_DEAD
                 else if negb (Player.grounded s) then Player_JUMP
                      else if negb (Player.frame s =? 0)%Z then Player_WALK1
                           else Player_STAND).
  assert (Sp : sprite = Player_STAND \/ sprite = Player_WALK1 \/
               sprite = Player_JUMP \/ sprite = Player_DEAD).
  { unfold sprite. destruct (Player.alive s), (Player.grounded s),
      (Player.frame s =? 0)%Z; simpl; auto. }
  clearbody sprite.
  set (flip := if Qltb (Player.vel_x s) 0 then true else false).
  destruct (draw_sprite_spec surface sprite 8 16 x_pos y_pos flip
              (covers_16x8 sprite Sp)) as (s' & D & H).
  exists s'. split; [exact D|]. intros px py. rewrite H.
  destruct (on_screen px py) eqn:On; [|left; reflexivity]. simpl andb.
  destruct ((0 <=? px - x_pos) && (px - x_pos <? 8))%Z eqn:Bx;
    [|left; reflexivity].
  destruct ((0 <=? py - y_pos) && (py - y_pos <? 16))%Z eqn:By;
    [|left; reflexivity].
  simpl andb. cbv iota.
  apply andb_true_iff in Bx, By.
  rewrite Z.leb_le, Z.ltb_lt in Bx, By.
  destruct (Z_lt_le_dec (py - y_pos) 8) as [Up|Low].
  - unfold paint.
    destruct (sprite_value sprite 8 flip (px - x_pos) (py - y_pos) =? 1)%Z;
      [|destruct (sprite_value sprite 8 flip (px - x_pos) (py - y_pos)
                  =? 2)%Z].
    + right. split; [lia|]. split; [reflexivity|]. simpl. auto.
    + right. split; [lia|]. split; [reflexivity|]. simpl. auto.
    + left. reflexivity.
  - left. rewrite (blank_lower_half sprite flip _ _ Sp) by lia. reflexivity.
Qed.

(** [Coin.draw] never fails and only paints, in a dark tone, pixels of the
    screen within the 8 x 8 box whose corner is at
    (int(x - scroll_x), int(y)). *)
Theorem coin_draw_spec (c : Coin) (surface : Surface) (scroll_x : Q) :
  let x0 := py_int (c_x c - scroll_x) in
  let y0 := py_int (c_y c) in
  exists surface',
    Coin_draw c surface scroll_x = Some surface' /\
    drawn_within
      (fun px py => (x0 <= px < x0 + 8 /\ y0 <= py < y0 + 8)%Z)
      [COL_DARK1; COL_DARK2] surface surface'.
Proof.
  intros x0 y0. unfold Coin_draw. fold x0 y0.
  destruct (draw_sprite_spec surface Coin_SPRITE 8 8 x0 y0 false)
    as (s' & D & H).
  - intros y Hy. change (Z.to_nat 8) with 8%nat in Hy.
    do 8 (destruct y as [|y]; [eexists; split; [reflexivity|simpl; lia]|]).
    lia.
  - exists s'. split; [exact D|]. intros px py. rewrite H.
    destruct (on_screen px py) eqn:On; [|left; reflexivity]. simpl andb.
    destruct ((0 <=? px - x0) && (px - x0 <? 8))%Z eqn:Bx;
      [|left; reflexivity].
    destruct ((0 <=? py - y0) && (py - y0 <? 8))%Z eqn:By;
      [|left; reflexivity].
    simpl andb. cbv iota.
    apply andb_true_iff in Bx, By.
    rewrite Z.leb_le, Z.ltb_lt in Bx, By.
    unfold paint.
    destruct (sprite_value Coin_SPRITE 8 false (px - x0) (py - y0) =? 1)%Z;
      [|destruct (sprite_value Coin_SPRITE 8 false (px - x0) (py - y0)
                  =? 2)%Z].
    + right. split; [lia|]. split; [reflexivity|]. simpl. auto.
    + right. split; [lia|]. split; [reflexivity|]. simpl. auto.
    + left. reflexivity.
Qed.

Lemma draw_pixel_seen (s : Surface) (x y : Z) (c : Color) (px py : Z) :
  draw_pixel s x y c px py =
  if on_screen px py && ((px =? x) && (py =? y))%Z then c else s px py.
Proof.
  rewrite draw_pixel_at.
  destruct (Z.eqb_spec px x), (Z.eqb_spec py y); subst;
    rewrite ?andb_false_r; reflexivity.
Qed.

Lemma goal_rows (x0 y0 : Z) (n a : nat) (s : Surface) (px py : Z) :
  fold_left (Goal_draw_row x0 y0) (seq a n) s px py =
  if on_screen px py && ((px =? x0 + 7) || (px =? x0 + 8))%Z &&
     ((y0 + Z.of_nat a <=? py) && (py <? y0 + Z.of_nat (a + n)))%Z
  then COL_DARK2 else s px py.
Proof.
  revert a s. induction n as [|n IH]; intros a s.
  - simpl fold_left. destruct (on_screen px py); [|reflexivity].
    zcases; try reflexivity; lia.
  - simpl seq. simpl fold_left. rewrite IH. unfold Goal_draw_row.
    rewrite !draw_pixel_seen.
    destruct (on_screen px py); [|reflexivity]. simpl andb.
    zcases; try reflexivity; lia.
Qed.

(** [Goal.draw] paints a pole: exactly the pixels of the screen in columns 7
    and 8 of the goal's box, over its 32 rows, become the darkest tone, and
    nothing else changes. *)
Theorem goal_draw_spec (g : Goal) (surface : Surface) (scroll_x : Q)
  (px py : Z) :
  let x0 := py_int (g_x g - scroll_x) in
  let y0 := py_int (g_y g) in
  Goal_draw g surface scroll_x px py =
  if on_screen px py && ((px =? x0 + 7) || (px =? x0 + 8))%Z &&
     ((y0 <=? py) && (py <? y0 + 32))%Z
  then COL_DARK2 else surface px py.
Proof.
  cbv zeta. unfold Goal_draw. rewrite goal_rows.
  destruct (on_screen px py); [|reflexivity]. simpl andb.
  zcases; try reflexivity; lia.
Qed.

(** ** Text *)













